(** * Admin product router and product-creation form: a shallow embedding

    The development follows the two source files of the repository:

    - the tRPC [productRouter] (queries and mutations over the Prisma
      client), embedded as computations in a state-and-error monad over
      an explicit relational store;
    - the [AddProduct] form component, embedded as handlers that
      transform the form state, with the upload service as a function.

    JavaScript numbers are kept abstract: [float] is a type variable
    and [parseFloat] a function variable of the sections below. *)

From Stdlib Require Import String Ascii ZArith List.
From stdpp Require Import gmap strings list fin_maps infinite sorting.

Open Scope string_scope.
Open Scope list_scope.

(** ** Entities of the relational store *)

Module Product.
(** Modelled from the spec: the Prisma schema is not part of the sources;
    section 3 of the specification lists the columns of [Product]
    (the primary key [id] is the key of the table below). *)
Record t {float : Type} : Type := mk {
  name : string;
  price : float;
  weight : float;
  description : string;
  isActive : bool;
  createdAt : Z
}.
Arguments t : clear implicits.
Arguments mk {float}.
End Product.

Module Image.
(** Modelled from the spec: an image row; [productId] is the foreign key
    to the owning product, [createdAt] is selected by [addProductImage]. *)
Record t : Type := mk {
  src : string;
  alt : string;
  productId : string;
  createdAt : Z
}.
End Image.

Module Variant.
(** Modelled from the spec: a variant row; [addVariant] writes the four
    columns below when it creates one. *)
Record t : Type := mk {
  name : string;
  imageSrc : string;
  type : string;
  productId : string
}.
End Variant.

Module Category.
(** Modelled from the spec: a category row. *)
Record t : Type := mk {
  name : string;
  isActive : bool
}.
End Category.

Module Settings.
(** Modelled from the spec: a settings row, unique on [name]. *)
Record t : Type := mk {
  name : string;
  value : string
}.
End Settings.

(** ** Errors and results of the data layer *)

Inductive PrismaError : Type :=
  | RecordNotFound        (* findUniqueOrThrow / update / connect on a missing row *)
  | ForeignKeyViolation   (* a row that references a missing product *)
  | ValidationError       (* an argument the client refuses: a [where] without
                             its unique field, a number that is not finite *)
  | ClientUnavailable.    (* the client cannot reach the database *)

Inductive Result (A : Type) : Type :=
  | Ok (a : A)
  | Err (e : PrismaError).
Arguments Ok {A} a.
Arguments Err {A} e.

Definition isOk {A} (r : Result A) : bool :=
  match r with Ok _ => true | Err _ => false end.

(** ** Numbers *)

(** [float] stands for the JavaScript numbers. The data layer needs one
    thing of them: whether a number is finite. [parseFloat] gives [NaN]
    for a string that does not start with a number and an infinity for
    one that is too large, and the client refuses such a [Float]
    argument. *)
Class JsNumber (float : Type) : Type := isFinite : float → bool.

(** ** The store *)

Section Store.
Context {float : Type} `{!JsNumber float}.

(** The tables behind [ctx.prisma]. [categoryToProduct] is the implicit
    many-to-many join table, a set of (category id, product id) pairs.
    [online] tells whether the client reaches the database: every query
    rejects with [ClientUnavailable] when it does not. *)
Record Db : Type := mkDb {
  products : gmap string (Product.t float);
  images : gmap string Image.t;
  variants : gmap string Variant.t;
  categories : gmap string Category.t;
  categoryToProduct : gset (string * string);
  settings : gmap string string;
  online : bool
}.

(** A query or mutation: it reads and writes the store and either
    resolves with a value or rejects. A rejection keeps the writes that
    were done before it (there is no surrounding transaction). *)
Definition M (A : Type) : Type := Db → Db * Result A.

Definition ret {A} (a : A) : M A := λ db, (db, Ok a).

Definition throw {A} (e : PrismaError) : M A := λ db, (db, Err e).

Definition bind {A B} (m : M A) (k : A → M B) : M B :=
  λ db, match m db with
        | (db', Ok a) => k a db'
        | (db', Err e) => (db', Err e)
        end.

(** [try { m } catch (e) { h e }] *)
Definition try_catch {A} (m : M A) (h : PrismaError → M A) : M A :=
  λ db, match m db with
        | (db', Ok a) => (db', Ok a)
        | (db', Err e) => h e db'
        end.

Definition get : M Db := λ db, (db, Ok db).
Definition put (db' : Db) : M unit := λ _, (db', Ok tt).

(** Every client call starts here. *)
Definition request : M unit :=
  λ db, if online db then (db, Ok tt) else (db, Err ClientUnavailable).

(** The state a computation leaves and the value it resolves with. *)
Definition exec {A} (m : M A) (db : Db) : Db := (m db).1.
Definition eval {A} (m : M A) (db : Db) : Result A := (m db).2.

End Store.

Arguments Db : clear implicits.
Arguments M : clear implicits.

(** The monad structure, so that stdpp's [x ← m; k] and [m;; k] read as
    [const x = await m; k] and [await m; k]. *)
Global Instance M_ret {float} : MRet (M float) := λ A, ret.
Global Instance M_bind {float} : MBind (M float) := λ A B k m, bind m k.

(** ** The Prisma client calls the router makes *)

(** [data] of [product.update]: the scalar columns to overwrite (absent
    columns keep their value) and the write on the [categories] relation. *)
Inductive CategoriesWrite : Type :=
  | CategoriesSet (ids : list string)     (* categories: { set: [...] } *)
  | CategoriesConnect (id : string).      (* categories: { connect: { id } } *)

Module ProductUpdate.
Record t {float : Type} : Type := mk {
  name : option string;
  price : option float;
  weight : option float;
  description : option string;
  isActive : option bool;
  categories : option CategoriesWrite
}.
Arguments t : clear implicits.
Arguments mk {float}.
End ProductUpdate.

(** [data] of [product.create] with its two nested [createMany]. *)
Module ImageCreate.
Record t : Type := mk { src : string; alt : string }.
End ImageCreate.

Module VariantCreateMany.
Record t : Type := mk { name : string; imageSrc : string; type : string }.
End VariantCreateMany.

Module ProductCreate.
Record t {float : Type} : Type := mk {
  name : string;
  price : float;
  weight : float;
  description : string;
  images : list ImageCreate.t;
  variants : list VariantCreateMany.t
}.
Arguments t : clear implicits.
Arguments mk {float}.
End ProductCreate.

(** [where], [include] and [orderBy] of [product.findMany]. *)
Module ProductWhere.
Record t : Type := mk {
  id : option string;
  isActive : option bool;
  categories_some_id : option string
}.
End ProductWhere.

Module ProductInclude.
Record t : Type := mk { images : bool; categories : bool }.
End ProductInclude.

Inductive SortOrder : Type := asc | desc.

(** A product as [findMany] returns it: the row, its id, and the
    relations that were asked for ([None] when not included). *)
Module ProductPayload.
Record t {float : Type} : Type := mk {
  id : string;
  row : Product.t float;
  images : option (list (string * Image.t));
  categories : option (list (string * Category.t))
}.
Arguments t : clear implicits.
Arguments mk {float}.
End ProductPayload.

Section Client.
Context {float : Type} `{!JsNumber float}.

(** The schema's default of [Product.isActive], which the sources do
    not show. *)
Variable isActive_default : bool.

Implicit Types (db : Db float) (id : string).

Definition with_products (f : gmap string (Product.t float) → gmap string (Product.t float)) db : Db float :=
  mkDb (f (products db)) (images db) (variants db) (categories db)
       (categoryToProduct db) (settings db) (online db).

Definition with_variants (f : gmap string Variant.t → gmap string Variant.t) db : Db float :=
  mkDb (products db) (images db) (f (variants db)) (categories db)
       (categoryToProduct db) (settings db) (online db).

Definition with_categories (f : gmap string Category.t → gmap string Category.t) db : Db float :=
  mkDb (products db) (images db) (variants db) (f (categories db))
       (categoryToProduct db) (settings db) (online db).

Definition with_categoryToProduct (f : gset (string * string) → gset (string * string)) db : Db float :=
  mkDb (products db) (images db) (variants db) (categories db)
       (f (categoryToProduct db)) (settings db) (online db).

(** A new row under a generated id ([@default(cuid())]): an id the
    table does not hold yet. *)
Definition insert_fresh {V} (m : gmap string V) (v : V) : gmap string V :=
  <[fresh (dom m) := v]> m.

(** [createMany({ data: rows })]: the rows one after the other. *)
Definition createMany {V} (rows : list V) (m : gmap string V) : gmap string V :=
  foldl insert_fresh m rows.

(** The relations of a product, as [include] loads them. *)
Definition imagesOf id db : list (string * Image.t) :=
  filter (λ kv, Image.productId kv.2 = id) (map_to_list (images db)).

Definition variantsOf id db : list (string * Variant.t) :=
  filter (λ kv, Variant.productId kv.2 = id) (map_to_list (variants db)).

Definition categoriesOf id db : list (string * Category.t) :=
  filter (λ kv, (kv.1, id) ∈ categoryToProduct db) (map_to_list (categories db)).

(** [product.findUniqueOrThrow({ where: { id } })] *)
Definition product_findUniqueOrThrow id : M float (string * Product.t float) :=
  request;;
  db ← get;
  match products db !! id with
  | Some p => mret (id, p)
  | None => throw RecordNotFound
  end.

Definition apply_scalars (data : ProductUpdate.t float) (p : Product.t float) : Product.t float :=
  Product.mk (default (Product.name p) (ProductUpdate.name data))
             (default (Product.price p) (ProductUpdate.price data))
             (default (Product.weight p) (ProductUpdate.weight data))
             (default (Product.description p) (ProductUpdate.description data))
             (default (Product.isActive p) (ProductUpdate.isActive data))
             (Product.createdAt p).

(** The categories a relation write names: each has to exist. *)
Definition written_ids (w : CategoriesWrite) : list string :=
  match w with
  | CategoriesSet ids => ids
  | CategoriesConnect c => [c]
  end.

Definition apply_categories id (w : CategoriesWrite) (j : gset (string * string)) : gset (string * string) :=
  match w with
  | CategoriesSet ids =>
      filter (λ cp, cp.2 ≠ id) j ∪ list_to_set ((λ c, (c, id)) <$> ids)
  | CategoriesConnect c => j ∪ {[ (c, id) ]}
  end.

(** The [Float] columns a [data] names have to be finite numbers. *)
Definition finite_scalars (data : ProductUpdate.t float) : bool :=
  from_option isFinite true (ProductUpdate.price data)
  && from_option isFinite true (ProductUpdate.weight data).

(** [product.update({ where: { id }, data })]: rejects, writing
    nothing, when the product or a category to relate is missing, or
    when a number of [data] is not finite. *)
Definition product_update id (data : ProductUpdate.t float) : M float (string * Product.t float) :=
  request;;
  db ← get;
  match products db !! id with
  | None => throw RecordNotFound
  | Some p =>
      if finite_scalars data
      then
        let p' := apply_scalars data p in
        match ProductUpdate.categories data with
        | None =>
            put (with_products <[id := p']> db);;
            mret (id, p')
        | Some w =>
            if forallb (λ c, bool_decide (is_Some (categories db !! c))) (written_ids w)
            then put (with_categoryToProduct (apply_categories id w)
                        (with_products <[id := p']> db));;
                 mret (id, p')
            else throw RecordNotFound
        end
      else throw ValidationError
  end.

(** [product.create({ data })] with nested [images.createMany] and
    [variants.createMany]: the product and all its rows in one write,
    or, when the price or the weight is not a finite number, a
    rejection and no write at all. [now] is the clock value [createdAt]
    defaults to. *)
Definition product_create (now : Z) (data : ProductCreate.t float) : M float (string * Product.t float) :=
  request;;
  db ← get;
  if negb (isFinite (ProductCreate.price data) && isFinite (ProductCreate.weight data))
  then throw ValidationError
  else
  let id := fresh (dom (products db)) in
  let p := Product.mk (ProductCreate.name data) (ProductCreate.price data)
                      (ProductCreate.weight data) (ProductCreate.description data)
                      isActive_default now in
  put (mkDb (<[id := p]> (products db))
            (createMany ((λ i, Image.mk (ImageCreate.src i) (ImageCreate.alt i) id now)
                           <$> ProductCreate.images data) (images db))
            (createMany ((λ v, Variant.mk (VariantCreateMany.name v)
                                          (VariantCreateMany.imageSrc v)
                                          (VariantCreateMany.type v) id)
                           <$> ProductCreate.variants data) (variants db))
            (categories db) (categoryToProduct db) (settings db) (online db));;
  mret (id, p).

(** [variant.create({ data })]: the row has to reference a product. *)
Definition variant_create (data : Variant.t) : M float (string * Variant.t) :=
  request;;
  db ← get;
  match products db !! Variant.productId data with
  | None => throw ForeignKeyViolation
  | Some _ =>
      put (with_variants (λ m, insert_fresh m data) db);;
      mret (fresh (dom (variants db)), data)
  end.

(** [variant.update({ where: { id }, data: { name, imageSrc } })] *)
Definition variant_update id (name imageSrc : string) : M float (string * Variant.t) :=
  request;;
  db ← get;
  match variants db !! id with
  | None => throw RecordNotFound
  | Some v =>
      let v' := Variant.mk name imageSrc (Variant.type v) (Variant.productId v) in
      put (with_variants <[id := v']> db);;
      mret (id, v')
  end.

(** [settings.findUnique({ where: { name } })]: the row or [null]. *)
Definition settings_findUnique (name : string) : M float (option Settings.t) :=
  request;;
  db ← get;
  mret (Settings.mk name <$> settings db !! name).

(** [category.findUniqueOrThrow] and [category.update] of [isActive]. *)
Definition category_findUniqueOrThrow id : M float (string * Category.t) :=
  request;;
  db ← get;
  match categories db !! id with
  | Some c => mret (id, c)
  | None => throw RecordNotFound
  end.

Definition category_update_isActive id (b : bool) : M float (string * Category.t) :=
  request;;
  db ← get;
  match categories db !! id with
  | None => throw RecordNotFound
  | Some c =>
      let c' := Category.mk (Category.name c) b in
      put (with_categories <[id := c']> db);;
      mret (id, c')
  end.

(** [product.findMany({ where, include, orderBy: { createdAt } })] *)
Definition matches (w : ProductWhere.t) db (kv : string * Product.t float) : bool :=
  match ProductWhere.id w with
  | Some i => String.eqb kv.1 i
  | None => true
  end
  && match ProductWhere.isActive w with
     | Some b => Bool.eqb (Product.isActive kv.2) b
     | None => true
     end
  && match ProductWhere.categories_some_id w with
     | Some c => bool_decide (is_Some (categories db !! c))
                 && bool_decide ((c, kv.1) ∈ categoryToProduct db)
     | None => true
     end.

Definition load (inc : ProductInclude.t) db (kv : string * Product.t float) : ProductPayload.t float :=
  ProductPayload.mk kv.1 kv.2
    (if ProductInclude.images inc then Some (imagesOf kv.1 db) else None)
    (if ProductInclude.categories inc then Some (categoriesOf kv.1 db) else None).

Definition newer_first (a b : string * Product.t float) : Prop :=
  (Product.createdAt b.2 ≤ Product.createdAt a.2)%Z.
Definition older_first (a b : string * Product.t float) : Prop :=
  (Product.createdAt a.2 ≤ Product.createdAt b.2)%Z.

Global Instance newer_first_dec a b : Decision (newer_first a b).
Proof. unfold newer_first. apply _. Defined.
Global Instance older_first_dec a b : Decision (older_first a b).
Proof. unfold older_first. apply _. Defined.

Definition order_rows (o : option SortOrder) (l : list (string * Product.t float)) : list (string * Product.t float) :=
  match o with
  | None => l
  | Some desc => merge_sort newer_first l
  | Some asc => merge_sort older_first l
  end.

Definition product_findMany (w : ProductWhere.t) (inc : ProductInclude.t)
    (createdAt : option SortOrder) : M float (list (ProductPayload.t float)) :=
  request;;
  db ← get;
  mret (load inc db <$> order_rows createdAt
          (List.filter (matches w db) (map_to_list (products db)))).

End Client.

(** ** Inputs of the procedures *)

Module ImageField.
Record t : Type := mk { src : string }.
End ImageField.

Module VariantField.
Record t : Type := mk { name : string; imageSrc : string }.
End VariantField.

Module ProductInput.
(** Modelled from the spec: [ProductInput] of [./types] is not part of
    the sources; it is the payload the form submits
    ([ProductFormInputs] of the component): name, price and weight as
    strings, description, image list and variant list. *)
Record t : Type := mk {
  name : string;
  price : string;
  weight : string;
  description : string;
  image : list ImageField.t;
  variant : list VariantField.t
}.
End ProductInput.

Module UpdateProductInput.
(** Modelled from the spec: [UpdateProductInput] of [./types], the id
    and the same scalar fields. *)
Record t : Type := mk {
  id : string;
  name : string;
  price : string;
  weight : string;
  description : string
}.
End UpdateProductInput.

(** An entry of the [addVariant] batch. *)
Module VariantEntry.
Record t : Type := mk {
  id : string;
  name : string;
  imageSrc : string;
  add : bool;
  productId : string
}.
End VariantEntry.

(** ** The procedures of [productRouter] *)

Section Router.
Context {float : Type} `{!JsNumber float}.
Variable parseFloat : string → float.
Variable isActive_default : bool.

Local Abbreviation M := (M float).

Definition data_isActive (b : bool) : ProductUpdate.t float :=
  ProductUpdate.mk None None None None (Some b) None.

Definition data_categories (w : CategoriesWrite) : ProductUpdate.t float :=
  ProductUpdate.mk None None None None None (Some w).

Definition where_active : ProductWhere.t :=
  ProductWhere.mk None (Some true) None.

Definition where_active_in (category : string) : ProductWhere.t :=
  ProductWhere.mk None (Some true) (Some category).

Definition include_images_categories : ProductInclude.t :=
  ProductInclude.mk true true.

(** [input?.id] of a nullish input: without an id the client rejects
    the [where]. *)
Definition unique_id (input : option string) : M string :=
  match input with
  | Some id => mret id
  | None => throw ValidationError
  end.

Definition getActiveProducts : M (list (ProductPayload.t float)) :=
  products ← product_findMany where_active include_images_categories (Some desc);
  mret products.

Definition getActiveProductsByCategory (id : string) : M (list (ProductPayload.t float)) :=
  if String.eqb id "all"
  then product_findMany where_active include_images_categories (Some desc)
  else
    products ← product_findMany (where_active_in id) include_images_categories (Some desc);
    mret products.

Definition toggleStatus (input : option string) : M (string * Product.t float) :=
  product ← (id ← unique_id input; product_findUniqueOrThrow id);
  (if Product.isActive product.2
   then id ← unique_id input; product_update id (data_isActive false)
   else id ← unique_id input; product_update id (data_isActive true));;
  mret product.

Definition addProduct (now : Z) (input : ProductInput.t) : M unit :=
  product_create isActive_default now
    (ProductCreate.mk
       (ProductInput.name input)
       (parseFloat (ProductInput.price input))
       (parseFloat (ProductInput.weight input))
       (ProductInput.description input)
       ((λ image, ImageCreate.mk (ImageField.src image) (ProductInput.name input))
          <$> ProductInput.image input)
       ((λ variant, VariantCreateMany.mk (VariantField.name variant)
                                         (VariantField.imageSrc variant) "color")
          <$> ProductInput.variant input));;
  mret tt.

Definition updateProduct (input : UpdateProductInput.t) : M unit :=
  product_update (UpdateProductInput.id input)
    (ProductUpdate.mk
       (Some (UpdateProductInput.name input))
       (Some (parseFloat (UpdateProductInput.price input)))
       (Some (parseFloat (UpdateProductInput.weight input)))
       (Some (UpdateProductInput.description input))
       None None);;
  mret tt.

Definition attachProductToCategory (productId categoryId : string) : M unit :=
  product_update productId (data_categories (CategoriesSet []));;
  product_update productId (data_categories (CategoriesConnect categoryId));;
  mret tt.

Definition removeAllCategories (productId : string) : M unit :=
  product_update productId (data_categories (CategoriesSet []));;
  mret tt.

(** [list.forEach(async (x) => { ... })]: the callback is started on
    every element, in array order, and nothing awaits the promises
    it returns: a rejection of one call stops neither the others nor
    the caller. *)
Definition forEach_async {A} (l : list A) (f : A → M unit) : M unit :=
  λ db, (foldl (λ d a, exec (f a) d) db l, Ok tt).

Definition addVariant_entry (variant : VariantEntry.t) : M unit :=
  if VariantEntry.add variant
  then variant_create (Variant.mk (VariantEntry.name variant)
                                  (VariantEntry.imageSrc variant)
                                  "color"
                                  (VariantEntry.productId variant));;
       mret tt
  else variant_update (VariantEntry.id variant)
                      (VariantEntry.name variant)
                      (VariantEntry.imageSrc variant);;
       mret tt.

Definition addVariant (variant : list VariantEntry.t) : M unit :=
  forEach_async variant addVariant_entry.

(** The [catch] branch logs the error and resolves with [null]. *)
Definition getBannerText : M (option Settings.t) :=
  try_catch
    (bannerText ← settings_findUnique "banner"; mret bannerText)
    (λ e, mret None).

Definition toggleCategoryStatus (input : option string) : M (string * Category.t) :=
  category ← (id ← unique_id input; category_findUniqueOrThrow id);
  (if Category.isActive category.2
   then id ← unique_id input; category_update_isActive id false
   else id ← unique_id input; category_update_isActive id true);;
  mret category.

End Router.

(** ** The [AddProduct] form component *)

(** [s.slice(n)] *)
Fixpoint skip (n : nat) (s : string) : string :=
  match n, s with
  | O, _ => s
  | S n', String _ s' => skip n' s'
  | S _, EmptyString => EmptyString
  end.

(** [s.replace(pattern, replacement)] with a string pattern: the first
    occurrence of [pattern] is replaced, the rest of [s] is kept.
    ([replacement] is taken literally: the one the component passes
    holds no [$].) *)
Fixpoint replace (pattern replacement s : string) {struct s} : string :=
  if String.prefix pattern s
  then replacement +:+ skip (String.length pattern) s
  else match s with
       | EmptyString => EmptyString
       | String c s' => String c (replace pattern replacement s')
       end.

Definition s3_host : string :=
  "https://hustlermy-dev.s3.ap-southeast-1.amazonaws.com".

Definition cloudFront_host : string :=
  "https://d1sah57fmj9klu.cloudfront.net".

(** [url.replace(s3_host, cloudFront_host)], as the three handlers
    compute [cloudFrontUrl]. *)
Definition cloudFrontUrl (url : string) : string :=
  replace s3_host cloudFront_host url.

(** A row of the [variant] field array in the form values. The form
    library writes a path such as [variant.3.imageSrc] into whatever the
    array holds, so a row can lack a field ([None] is [undefined]). *)
Module VariantRow.
Record t : Type := mk { name : option string; imageSrc : option string }.
Definition empty : t := mk None None.
Definition set_name (s : string) (r : t) : t := mk (Some s) (imageSrc r).
Definition set_imageSrc (s : string) (r : t) : t := mk (name r) (Some s).
End VariantRow.

(** The values [useForm] holds. An entry of [variant] is [None] where
    the array has a hole. *)
Module FormValues.
Record t : Type := mk {
  name : string;
  price : string;
  weight : string;
  description : string;
  image : list ImageField.t;
  variant : list (option VariantRow.t)
}.
End FormValues.

(** [z.string().min(lo).max(hi)] *)
Definition string_min_max (lo hi : N) (s : string) : bool :=
  (lo <=? N.of_nat (String.length s))%N && (N.of_nat (String.length s) <=? hi)%N.

Definition schema_image (i : ImageField.t) : option ImageField.t :=
  if string_min_max 1 1000 (ImageField.src i) then Some i else None.

Definition schema_variant (v : option VariantRow.t) : option VariantField.t :=
  match v with
  | Some (VariantRow.mk (Some name) (Some imageSrc)) =>
      if string_min_max 1 100 name && string_min_max 1 10000 imageSrc
      then Some (VariantField.mk name imageSrc)
      else None
  | _ => None
  end.

(** [schema]: the parsed payload, or [None] when a field is rejected. *)
Definition schema (v : FormValues.t) : option ProductInput.t :=
  if string_min_max 1 100 (FormValues.name v)
     && string_min_max 1 100 (FormValues.price v)
     && string_min_max 1 100 (FormValues.weight v)
     && (1 <=? String.length (FormValues.description v))%nat
  then
    image ← mapM schema_image (FormValues.image v);
    variant ← mapM schema_variant (FormValues.variant v);
    Some (ProductInput.mk (FormValues.name v) (FormValues.price v)
                          (FormValues.weight v) (FormValues.description v)
                          image variant)
  else None.

(** [setValue(`variant.${index}.<field>`, ...)]: the row at [index] gets
    the field; an index past the end extends the array, leaving holes. *)
Definition set_variant (index : nat) (f : VariantRow.t → VariantRow.t)
    (l : list (option VariantRow.t)) : list (option VariantRow.t) :=
  let l' := l ++ replicate (S index - length l) None in
  <[index := Some (f (default VariantRow.empty (l' !!! index)))]> l'.

Section Form.
Context {File : Type}.

(** [uploadToS3(file)]: the URL the storage service answers with. *)
Variable uploadToS3 : File → string.

(** The component: the form values and the [imagePreviews] state
    ([None] while it is [undefined]; a preview stands for its file). *)
Record Component : Type := mkComponent {
  values : FormValues.t;
  imagePreviews : option (list File)
}.

Definition setImage (image : list ImageField.t) (c : Component) : Component :=
  let v := values c in
  mkComponent
    (FormValues.mk (FormValues.name v) (FormValues.price v) (FormValues.weight v)
                   (FormValues.description v) image (FormValues.variant v))
    (imagePreviews c).

Definition setVariant (variant : list (option VariantRow.t)) (c : Component) : Component :=
  let v := values c in
  mkComponent
    (FormValues.mk (FormValues.name v) (FormValues.price v) (FormValues.weight v)
                   (FormValues.description v) (FormValues.image v) variant)
    (imagePreviews c).

Definition setImagePreviews (previews : list File) (c : Component) : Component :=
  mkComponent (values c) (Some previews).

(** [useForm({ defaultValues: { image: [{ src: "" }],
                                variant: [{ name: '', imageSrc: "" }] } })] *)
Definition initial : Component :=
  mkComponent
    (FormValues.mk "" "" "" "" [ImageField.mk ""]
                   [Some (VariantRow.mk (Some "") (Some ""))])
    None.

(** The body of the [for ... of e.target.files] loop: one preview and
    one rewritten URL per file. *)
Definition upload_step (acc : list File * list string) (element : File) : list File * list string :=
  let url := uploadToS3 element in
  let cloudFrontUrl := cloudFrontUrl url in
  (acc.1 ++ [element], acc.2 ++ [cloudFrontUrl]).

Definition onProductImageChange (files : option (list File)) (c : Component) : Component :=
  match files with
  | None => c
  | Some files =>
      let '(images, urls) := foldl upload_step ([], []) files in
      setImage ((λ url, ImageField.mk url) <$> urls) (setImagePreviews images c)
  end.

(** [files[0]] of an empty selection is [undefined], which the upload
    rejects: the handler stops there. *)
Definition handleAddMoreImages (files : option (list File)) (c : Component) : Component :=
  match files with
  | None => c
  | Some [] => c
  | Some (file :: _) =>
      let url := uploadToS3 file in
      let cloudFrontUrl := cloudFrontUrl url in
      let images := FormValues.image (values c) in
      let c' := setImage (images ++ [ImageField.mk cloudFrontUrl]) c in
      match imagePreviews c' with
      | Some previews => setImagePreviews (previews ++ [file]) c'
      | None => c'   (* spreading [undefined] throws after the form was written *)
      end
  end.

Definition onVariantImageChange (files : option (list File)) (index : nat) (c : Component) : Component :=
  match files with
  | None => c
  | Some [] => c
  | Some (file :: _) =>
      let url := uploadToS3 file in
      let cloudFrontUrl := cloudFrontUrl url in
      setVariant (set_variant index (VariantRow.set_imageSrc cloudFrontUrl)
                              (FormValues.variant (values c))) c
  end.

(** [append({ name: "", imageSrc: "" })] and [remove(index)] of the
    field array. *)
Definition append_variant (c : Component) : Component :=
  setVariant (FormValues.variant (values c) ++ [Some (VariantRow.mk (Some "") (Some ""))]) c.

Definition remove_variant (index : nat) (c : Component) : Component :=
  setVariant (delete index (FormValues.variant (values c))) c.

(** The registered text inputs and the rich-text editor write their
    own field. *)
Inductive TextField : Type := FName | FPrice | FWeight | FDescription.

Definition input_text (field : TextField) (s : string) (c : Component) : Component :=
  let v := values c in
  mkComponent
    (FormValues.mk
       (match field with FName => s | _ => FormValues.name v end)
       (match field with FPrice => s | _ => FormValues.price v end)
       (match field with FWeight => s | _ => FormValues.weight v end)
       (match field with FDescription => s | _ => FormValues.description v end)
       (FormValues.image v) (FormValues.variant v))
    (imagePreviews c).

Definition input_variant_name (index : nat) (s : string) (c : Component) : Component :=
  setVariant (set_variant index (VariantRow.set_name s) (FormValues.variant (values c))) c.

(** What the operator can do to the dialog before submitting. *)
Inductive Event : Type :=
  | ProductImageChange (files : option (list File))
  | AddMoreImages (files : option (list File))
  | VariantImageChange (files : option (list File)) (index : nat)
  | AppendVariant
  | RemoveVariant (index : nat)
  | InputText (field : TextField) (s : string)
  | InputVariantName (index : nat) (s : string).

Definition handle (c : Component) (e : Event) : Component :=
  match e with
  | ProductImageChange files => onProductImageChange files c
  | AddMoreImages files => handleAddMoreImages files c
  | VariantImageChange files index => onVariantImageChange files index c
  | AppendVariant => append_variant c
  | RemoveVariant index => remove_variant index c
  | InputText field s => input_text field s c
  | InputVariantName index s => input_variant_name index s c
  end.

Definition run (events : list Event) : Component := foldl handle initial events.

(** [handleSubmit(onSubmit)]: the payload [onSubmit] passes to the
    [addProduct] mutation, when the resolver accepts the values. *)
Definition submit (c : Component) : option ProductInput.t := schema (values c).

End Form.

(** ** The remaining procedures of [productRouter] *)

(** What [getProduct] resolves with: the product and its three
    relations. *)
Module ProductDetail.
Record t {float : Type} : Type := mk {
  id : string;
  row : Product.t float;
  images : list (string * Image.t);
  categories : list (string * Category.t);
  variants : list (string * Variant.t)
}.
Arguments t : clear implicits.
Arguments mk {float}.
End ProductDetail.

(** The projections [getImages] selects. *)
Module ImageSelect.
Record t : Type := mk { id : string; src : string; alt : string }.
End ImageSelect.

Module VariantSelect.
Record t : Type := mk { id : string; imageSrc : string }.
End VariantSelect.

Module ProductImages.
Record t {float : Type} : Type := mk {
  id : string;
  row : Product.t float;
  images : list ImageSelect.t;
  variants : list VariantSelect.t
}.
Arguments t : clear implicits.
Arguments mk {float}.
End ProductImages.

(** What [addProductImage] resolves with: the product and, of each of
    its images, the id and the creation time. *)
Module ProductImageIds.
Record t {float : Type} : Type := mk {
  id : string;
  row : Product.t float;
  images : list (string * Z)
}.
Arguments t : clear implicits.
Arguments mk {float}.
End ProductImageIds.

(** A category as [category.findMany] returns it, with its products
    when they were asked for. *)
Module CategoryPayload.
Record t {float : Type} : Type := mk {
  id : string;
  row : Category.t;
  products : option (list (string * Product.t float))
}.
Arguments t : clear implicits.
Arguments mk {float}.
End CategoryPayload.

Section MoreClient.
Context {float : Type} `{!JsNumber float}.

(** The order of the database on names ([orderBy: { name }]): it is the
    collation of the store, which the sources do not fix. *)
Context (collate : relation string) `{!RelDecision collate}.

(** The schema's default of [Category.isActive], which the sources do
    not show. *)
Variable category_isActive_default : bool.

Implicit Types (db : Db float) (id : string).

Definition with_images (f : gmap string Image.t → gmap string Image.t) db : Db float :=
  mkDb (products db) (f (images db)) (variants db) (categories db)
       (categoryToProduct db) (settings db) (online db).

Definition with_settings (f : gmap string string → gmap string string) db : Db float :=
  mkDb (products db) (images db) (variants db) (categories db)
       (categoryToProduct db) (f (settings db)) (online db).

(** The products of a category, as [include: { products }] loads them. *)
Definition productsOf (category : string) db : list (string * Product.t float) :=
  filter (λ kv, (category, kv.1) ∈ categoryToProduct db) (map_to_list (products db)).

Definition name_desc (a b : string * Variant.t) : Prop :=
  collate (Variant.name b.2) (Variant.name a.2).

Definition name_asc (a b : string * Category.t) : Prop :=
  collate (Category.name a.2) (Category.name b.2).

#[global] Instance name_desc_dec a b : Decision (name_desc a b).
Proof. unfold name_desc. apply _. Defined.

#[global] Instance name_asc_dec a b : Decision (name_asc a b).
Proof. unfold name_asc. apply _. Defined.

(** [product.findUnique({ where: { id }, include: { images: true,
    categories: true, variants: { orderBy: { name: 'desc' } } } })] *)
Definition product_findUnique_detail id : M float (option (ProductDetail.t float)) :=
  request;;
  db ← get;
  mret ((λ p, ProductDetail.mk id p (imagesOf id db) (categoriesOf id db)
                (merge_sort name_desc (variantsOf id db)))
          <$> products db !! id).

(** [product.findMany({ where: { id }, include: { images: { select:
    { id, src, alt } }, variants: { select: { id, imageSrc } } } })]:
    [id] is unique, so the list has the one product or is empty. *)
Definition product_findMany_images id : M float (list (ProductImages.t float)) :=
  request;;
  db ← get;
  mret ((λ kv : string * Product.t float,
           ProductImages.mk kv.1 kv.2
             ((λ i : string * Image.t,
                 ImageSelect.mk i.1 (Image.src i.2) (Image.alt i.2))
                <$> imagesOf kv.1 db)
             ((λ v : string * Variant.t,
                 VariantSelect.mk v.1 (Variant.imageSrc v.2))
                <$> variantsOf kv.1 db))
          <$> List.filter (λ kv, String.eqb kv.1 id) (map_to_list (products db))).

(** [product.update({ where: { id }, data: { images: { create:
    { src, alt } } }, include: { images: { select: { id: true,
    createdAt: true } } } })] *)
Definition product_update_images_create (now : Z) id (src alt : string)
    : M float (ProductImageIds.t float) :=
  request;;
  db ← get;
  match products db !! id with
  | None => throw RecordNotFound
  | Some p =>
      let db' := with_images (λ m, insert_fresh m (Image.mk src alt id now)) db in
      put db';;
      mret (ProductImageIds.mk id p
              ((λ i : string * Image.t, (i.1, Image.createdAt i.2)) <$> imagesOf id db'))
  end.

(** [product.update({ where: { id }, data: { images: { delete:
    { id: imageId } } } })]: the image has to be one of the product's;
    otherwise the call rejects and deletes nothing. *)
Definition product_update_images_delete id (imageId : string) : M float (string * Product.t float) :=
  request;;
  db ← get;
  match products db !! id with
  | None => throw RecordNotFound
  | Some p =>
      match images db !! imageId with
      | Some i =>
          if decide (Image.productId i = id)
          then put (with_images (delete imageId) db);;
               mret (id, p)
          else throw RecordNotFound
      | None => throw RecordNotFound
      end
  end.

(** [variant.delete({ where: { id } })] *)
Definition variant_delete id : M float (string * Variant.t) :=
  request;;
  db ← get;
  match variants db !! id with
  | None => throw RecordNotFound
  | Some v =>
      put (with_variants (delete id) db);;
      mret (id, v)
  end.

(** [settings.upsert({ where: { name }, update: { value },
    create: { name, value } })] *)
Definition settings_upsert (name value : string) : M float Settings.t :=
  request;;
  db ← get;
  match settings db !! name with
  | Some _ => put (with_settings <[name := value]> db)   (* update *)
  | None => put (with_settings <[name := value]> db)     (* create *)
  end;;
  mret (Settings.mk name value).

(** [category.findMany({ where: { isActive }, include: { products:
    { where: { isActive } } }, orderBy: { name: "asc" } })]; [None] for
    a part that is left out. *)
Definition category_findMany (isActive : option bool)
    (products_isActive : option (option bool)) : M float (list (CategoryPayload.t float)) :=
  request;;
  db ← get;
  mret ((λ kv : string * Category.t,
           CategoryPayload.mk kv.1 kv.2
             ((λ w : option bool,
                 List.filter (λ p : string * Product.t float,
                                match w with
                                | Some b => Bool.eqb (Product.isActive p.2) b
                                | None => true
                                end)
                             (productsOf kv.1 db))
                <$> products_isActive))
          <$> merge_sort name_asc
                (List.filter (λ kv : string * Category.t,
                                match isActive with
                                | Some b => Bool.eqb (Category.isActive kv.2) b
                                | None => true
                                end)
                             (map_to_list (categories db)))).



(** [category.delete({ where: { id } })]: the rows of the implicit join
    table that reference the category go with it. *)
Definition category_delete id : M float (string * Category.t) :=
  request;;
  db ← get;
  match categories db !! id with
  | None => throw RecordNotFound
  | Some c =>
      put (with_categoryToProduct (filter (λ cp, cp.1 ≠ id))
             (with_categories (delete id) db));;
      mret (id, c)
  end.

Local Abbreviation M := (M float).

Definition getAll : M (list (ProductPayload.t float)) :=
  products ← product_findMany (ProductWhere.mk None None None)
                              (ProductInclude.mk true false) (Some desc);
  mret products.

Definition getProduct (id : string) : M (option (ProductDetail.t float)) :=
  product ← product_findUnique_detail id;
  mret product.

Definition getImages (id : string) : M (list (ProductImages.t float)) :=
  images ← product_findMany_images id;
  mret images.

Definition addProductImage (now : Z) (productId imageSrc imageAlt : string)
    : M (ProductImageIds.t float) :=
  product_update_images_create now productId imageSrc imageAlt.

Definition deleteProductImage (productId imageId : string) : M unit :=
  product_update_images_delete productId imageId;;
  mret tt.

Definition removeVariant (id : string) : M unit :=
  variant_delete id;;
  mret tt.

Definition setBannerText (name value : string) : M unit :=
  settings_upsert name value;;
  mret tt.

Definition getCategories : M (list (CategoryPayload.t float)) :=
  categories ← category_findMany None None;
  mret categories.

Definition getActiveCategories : M (list (CategoryPayload.t float)) :=
  categories ← category_findMany (Some true) (Some (Some true));
  mret categories.



Definition deleteCategory (input : option string) : M unit :=
  (id ← unique_id input; category_delete id);;
  mret tt.

End MoreClient.

(** ** The rest of the form component *)

(** [list.join(sep)] *)
Fixpoint join_with (sep : string) (l : list string) : string :=
  match l with
  | [] => ""
  | [x] => x
  | x :: l' => x +:+ sep +:+ join_with sep l'
  end.

(** [classes.filter(Boolean).join(' ')]: the empty string is the one
    string that is falsy. *)
Definition classNames (classes : list string) : string :=
  join_with " " (List.filter (λ s, negb (String.eqb s "")) classes).

Section Submit.
Context {float : Type} `{!JsNumber float} {File : Type}.
Variable parseFloat : string → float.
Variable isActive_default : bool.

(** [handleSubmit(onSubmit)] as far as the store goes: when the
    resolver accepts the values, [onSubmit] sends them to the
    [addProduct] mutation; when it rejects them, nothing is sent. *)
Definition handleSubmit (now : Z) (c : @Component File) : M float unit :=
  match submit c with
  | Some data => addProduct parseFloat isActive_default now data
  | None => mret tt
  end.

End Submit.

(** ** Auxiliary definitions of the statements below *)

(** The row of a product after its [isActive] is flipped. *)
Definition flipped {float} (p : Product.t float) : Product.t float :=
  Product.mk (Product.name p) (Product.price p) (Product.weight p)
             (Product.description p) (negb (Product.isActive p))
             (Product.createdAt p).

(** A small store and a stand-in for [parseFloat] (the digits read as
    an integer) on which the procedures can be run. *)
Fixpoint digits (acc : Z) (s : string) : Z :=
  match s with
  | EmptyString => acc
  | String c s' =>
      let d := (Z.of_nat (nat_of_ascii c) - 48)%Z in
      if ((0 <=? d) && (d <=? 9))%Z then digits (10 * acc + d)%Z s' else acc
  end.

Definition sample_parseFloat (s : string) : Z := digits 0 s.

(** Every integer is a finite number. *)
#[global] Instance Z_number : JsNumber Z := λ _, true.

Definition sample_db : Db Z :=
  mkDb (<["p1" := Product.mk "Shirt" 10%Z 2%Z "cotton" true 5%Z]>
          (<["p2" := Product.mk "Hat" 3%Z 1%Z "wool" false 7%Z]> ∅))
       (<["i1" := Image.mk "https://d1sah57fmj9klu.cloudfront.net/shirt.png" "Shirt" "p1" 5%Z]> ∅)
       (<["v1" := Variant.mk "red" "https://d1sah57fmj9klu.cloudfront.net/red.png" "color" "p1"]> ∅)
       (<["c1" := Category.mk "Tops" true]> (<["c2" := Category.mk "Sale" false]> ∅))
       {[ ("c1", "p1") ]}
       (<["banner" := "Free shipping"]> ∅)
       true.

(** Referential integrity of the store: every image and every variant
    references a product that exists (the foreign keys of the schema). *)
Definition foreign_keys {float} (db : Db float) : Prop :=
  map_Forall (λ _ i, is_Some (products db !! Image.productId i)) (images db)
  ∧ map_Forall (λ _ v, is_Some (products db !! Variant.productId v)) (variants db).

#[global] Instance foreign_keys_dec {float} (db : Db float) : Decision (foreign_keys db).
Proof. unfold foreign_keys. apply _. Defined.

Definition sample_input : ProductInput.t :=
  ProductInput.mk "Socks" "12" "1" "wool socks"
    [ImageField.mk "https://d1sah57fmj9klu.cloudfront.net/socks-1.png";
     ImageField.mk "https://d1sah57fmj9klu.cloudfront.net/socks-2.png"]
    [VariantField.mk "blue" "https://d1sah57fmj9klu.cloudfront.net/blue.png"].



(** A URL on the CDN host, and not on the storage host. *)
Definition uses_cloudFront (url : string) : bool :=
  String.prefix cloudFront_host url && negb (String.prefix s3_host url).

(** An upload service answering under the storage domain, and what an
    operator may do with the dialog. *)
Definition sample_upload (file : string) : string :=
  s3_host +:+ "/next-s3-uploads/" +:+ file.

Definition sample_events : list (@Event string) :=
  [InputText FName "Socks"; InputText FPrice "12"; InputText FWeight "1";
   InputText FDescription "wool socks";
   ProductImageChange (Some ["socks-1.png"; "socks-2.png"]);
   AddMoreImages (Some ["socks-3.png"]);
   InputVariantName 0 "blue";
   VariantImageChange (Some ["blue.png"]) 0;
   AppendVariant;
   RemoveVariant 1].

(** What the handlers maintain on the form values: an image URL is
    either still empty or on the CDN host. *)
Definition url_ok (url : string) : Prop := url = "" ∨ uses_cloudFront url = true.

Definition image_ok (i : ImageField.t) : Prop := url_ok (ImageField.src i).

Definition variant_ok (v : option VariantRow.t) : Prop :=
  ∀ r url, v = Some r → VariantRow.imageSrc r = Some url → url_ok url.

Definition form_ok (v : FormValues.t) : Prop :=
  Forall image_ok (FormValues.image v) ∧ Forall variant_ok (FormValues.variant v).

(** Unfolds a procedure down to the store it reads and writes. *)
Ltac step_m :=
  unfold eval, exec, mbind, M_bind, bind, mret, M_ret, ret,
         request, get, put, throw, try_catch in *; simpl in *.

(** A collation to run the name-ordered queries with: the order of the
    character codes. *)
Definition sample_collate : relation string := λ a b, String.leb a b = true.

#[global] Instance sample_collate_dec : RelDecision sample_collate.
Proof. intros a b. unfold sample_collate. apply _. Defined.

(** [s.includes(pattern)] *)
Fixpoint includes (pattern s : string) : bool :=
  String.prefix pattern s
  || match s with
     | EmptyString => false
     | String _ s' => includes pattern s'
     end.

(** A stand-in for the JavaScript numbers that has the value [NaN], and
    for [parseFloat] on it: the leading digits of the string, [NaN]
    when it does not start with a digit. *)
Inductive SampleNumber : Type :=
  | Num (z : Z)
  | NaN.

#[global] Instance SampleNumber_number : JsNumber SampleNumber :=
  λ x, match x with Num _ => true | NaN => false end.

Definition is_digit (c : ascii) : bool :=
  (48 <=? nat_of_ascii c)%nat && (nat_of_ascii c <=? 57)%nat.

Definition sample_parse (s : string) : SampleNumber :=
  match s with
  | String c _ => if is_digit c then Num (digits 0 s) else NaN
  | EmptyString => NaN
  end.

Definition sample_store : Db SampleNumber :=
  mkDb (<["p1" := Product.mk "Shirt" (Num 10) (Num 2) "cotton" true 5%Z]> ∅)
       ∅ ∅ ∅ ∅ ∅ true.

(** Form values the schema accepts whose price is not a number. *)
Definition sample_values_abc : FormValues.t :=
  FormValues.mk "Socks" "abc" "1" "wool socks"
    [ImageField.mk "https://d1sah57fmj9klu.cloudfront.net/socks-1.png"] [].

Definition sample_input_abc : ProductInput.t :=
  ProductInput.mk "Socks" "abc" "1" "wool socks"
    [ImageField.mk "https://d1sah57fmj9klu.cloudfront.net/socks-1.png"] [].

(** * Properties of the router *)

Section ClientFacts.
Context {float : Type} `{!JsNumber float}.
Implicit Types (db : Db float) (id : string).

(** Writing a row back as it is changes nothing. *)
Lemma with_products_id db id p :
  products db !! id = Some p → with_products <[id := p]> db = db.
Proof.
  intros Hp. destruct db; unfold with_products; simpl in *.
  by rewrite insert_id.
Qed.

Lemma with_products_twice db id p q :
  with_products <[id := q]> (with_products <[id := p]> db)
  = with_products <[id := q]> db.
Proof.
  destruct db; unfold with_products; simpl. by rewrite insert_insert_eq.
Qed.

Lemma bind_run {A B} (m : M float A) (k : A → M float B) db :
  (m ≫= k) db
  = match m db with
    | (db', Ok a) => k a db'
    | (db', Err e) => (db', Err e)
    end.
Proof. reflexivity. Qed.

Lemma apply_scalars_categories (p : Product.t float) w :
  apply_scalars (ProductUpdate.mk None None None None None (Some w)) p = p.
Proof. by destruct p. Qed.

(** An update of the [categories] relation alone: all or nothing. *)
Lemma product_update_categories db id w p :
  online db = true → products db !! id = Some p →
  product_update id (ProductUpdate.mk None None None None None (Some w)) db
  = if forallb (λ c, bool_decide (is_Some (categories db !! c))) (written_ids w)
    then (with_categoryToProduct (apply_categories id w) db, Ok (id, p))
    else (db, Err RecordNotFound).
Proof.
  intros Hon Hp. unfold product_update. step_m. rewrite Hon, Hp.
  rewrite apply_scalars_categories.
  destruct (forallb _ _); [| reflexivity].
  by rewrite (with_products_id db id p Hp).
Qed.

End ClientFacts.

Section ToggleFacts.
Context {float : Type} `{!JsNumber float}.
Implicit Types (db : Db float) (id : string).

(** One toggle: the record that was read is what the call resolves
    with, and the stored row is the flipped one. *)
Lemma toggleStatus_once db id p :
  online db = true → products db !! id = Some p →
  toggleStatus (Some id) db = (with_products <[id := flipped p]> db, Ok (id, p)).
Proof.
  intros Hon Hp.
  unfold toggleStatus, unique_id, product_findUniqueOrThrow, product_update.
  step_m. rewrite Hon, Hp. simpl.
  destruct p as [n pr w d a t]; destruct a; simpl;
    rewrite Hon, Hp; reflexivity.
Qed.

Lemma toggleCategoryStatus_once db id c :
  online db = true → categories db !! id = Some c →
  toggleCategoryStatus (Some id) db
  = (with_categories <[id := Category.mk (Category.name c) (negb (Category.isActive c))]> db,
     Ok (id, c)).
Proof.
  intros Hon Hc.
  unfold toggleCategoryStatus, unique_id, category_findUniqueOrThrow,
         category_update_isActive.
  step_m. rewrite Hon, Hc. simpl.
  destruct c as [n a]; destruct a; simpl;
    rewrite Hon, Hc; reflexivity.
Qed.

End ToggleFacts.

Section ToggleClaims.
Context {float : Type} `{!JsNumber float}.
Implicit Types (db : Db float) (id : string).

(** C10: on a reachable store, for every existing product the toggle
    procedure resolves with the record as it was read before the flip:
    the [isActive] of the returned record is the value from before the
    call, while the stored row now holds the negated value; and so does
    the toggle of the categories for every existing category. Each half
    stands on its own: the one on products asks nothing of the
    categories of the store, nor the other of its products. *)
Theorem toggle_returns_record_before_flip db :
  online db = true →
  (∀ id p, products db !! id = Some p →
     eval (toggleStatus (Some id)) db = Ok (id, p)
     ∧ Product.isActive <$> products (exec (toggleStatus (Some id)) db) !! id
       = Some (negb (Product.isActive p)))
  ∧ (∀ cid c, categories db !! cid = Some c →
       eval (toggleCategoryStatus (Some cid)) db = Ok (cid, c)
       ∧ Category.isActive <$> categories (exec (toggleCategoryStatus (Some cid)) db) !! cid
         = Some (negb (Category.isActive c))).
Proof.
  intros Hon. split.
  - intros id p Hp. unfold eval, exec.
    rewrite (toggleStatus_once db id p Hon Hp). simpl.
    by rewrite lookup_insert_eq.
  - intros cid c Hc. unfold eval, exec.
    rewrite (toggleCategoryStatus_once db cid c Hon Hc). simpl.
    by rewrite lookup_insert_eq.
Qed.

(** C4: for a product id present in the store, one toggle flips
    [isActive], the second toggle succeeds as well, and after the two
    the product has its original [isActive]; indeed the whole store is
    what it was. *)
Theorem toggleStatus_twice_restores db id p :
  online db = true →
  products db !! id = Some p →
  let db1 := exec (toggleStatus (Some id)) db in
  let db2 := exec (toggleStatus (Some id)) db1 in
  Product.isActive <$> products db1 !! id = Some (negb (Product.isActive p))
  ∧ isOk (eval (toggleStatus (Some id)) db1) = true
  ∧ Product.isActive <$> products db2 !! id = Some (Product.isActive p)
  ∧ db2 = db.
Proof.
  intros Hon Hp db1 db2.
  assert (H1 : db1 = with_products <[id := flipped p]> db).
  { unfold db1, exec. by rewrite (toggleStatus_once db id p Hon Hp). }
  assert (Hp1 : products db1 !! id = Some (flipped p)).
  { rewrite H1. simpl. apply lookup_insert_eq. }
  assert (Hon1 : online db1 = true) by (by rewrite H1).
  assert (H2 : db2 = db).
  { unfold db2, exec. rewrite (toggleStatus_once db1 id _ Hon1 Hp1). simpl.
    rewrite H1, with_products_twice.
    apply with_products_id. rewrite Hp. f_equal.
    destruct p as [n pr w d a t]. unfold flipped; simpl. by rewrite negb_involutive. }
  split; [by rewrite Hp1 |].
  split; [unfold eval; by rewrite (toggleStatus_once db1 id _ Hon1 Hp1) |].
  split; [by rewrite H2, Hp | exact H2].
Qed.

End ToggleClaims.

Lemma toggle_returns_record_before_flip_witness :
  (∀ id p, products sample_db !! id = Some p →
     eval (toggleStatus (Some id)) sample_db = Ok (id, p)
     ∧ Product.isActive <$> products (exec (toggleStatus (Some id)) sample_db) !! id
       = Some (negb (Product.isActive p)))
  ∧ (∀ cid c, categories sample_db !! cid = Some c →
       eval (toggleCategoryStatus (Some cid)) sample_db = Ok (cid, c)
       ∧ Category.isActive
           <$> categories (exec (toggleCategoryStatus (Some cid)) sample_db) !! cid
         = Some (negb (Category.isActive c))).
Proof. apply (toggle_returns_record_before_flip sample_db). reflexivity. Defined.

(** On a store that has no category at all the product half still
    speaks: the record returned is the one from before the flip. *)
Example toggleStatus_on_store_without_categories :
  categories sample_store = ∅
  ∧ eval (toggleStatus (Some "p1")) sample_store
    = Ok ("p1", Product.mk "Shirt" (Num 10) (Num 2) "cotton" true 5%Z)
  ∧ Product.isActive <$> products (exec (toggleStatus (Some "p1")) sample_store) !! "p1"
    = Some false.
Proof. repeat split; reflexivity. Qed.

Lemma toggleStatus_twice_restores_witness :
  let db1 := exec (toggleStatus (Some "p2")) sample_db in
  let db2 := exec (toggleStatus (Some "p2")) db1 in
  Product.isActive <$> products db1 !! "p2" = Some true
  ∧ isOk (eval (toggleStatus (Some "p2")) db1) = true
  ∧ Product.isActive <$> products db2 !! "p2" = Some false
  ∧ db2 = sample_db.
Proof.
  apply (toggleStatus_twice_restores sample_db "p2"
           (Product.mk "Hat" 3%Z 1%Z "wool" false 7%Z)); reflexivity.
Defined.

Section UpdateClaims.
Context {float : Type} `{!JsNumber float}.
Variable parseFloat : string → float.
Implicit Types (db : Db float) (id : string).

(** What [updateProduct] does, case by case. *)
Lemma updateProduct_cases db input :
  updateProduct parseFloat input db
  = if online db
    then match products db !! UpdateProductInput.id input with
         | Some p =>
             if isFinite (parseFloat (UpdateProductInput.price input))
                && isFinite (parseFloat (UpdateProductInput.weight input))
             then (with_products
                     <[UpdateProductInput.id input
                       := Product.mk (UpdateProductInput.name input)
                                     (parseFloat (UpdateProductInput.price input))
                                     (parseFloat (UpdateProductInput.weight input))
                                     (UpdateProductInput.description input)
                                     (Product.isActive p) (Product.createdAt p)]> db,
                   Ok tt)
             else (db, Err ValidationError)
         | None => (db, Err RecordNotFound)
         end
    else (db, Err ClientUnavailable).
Proof.
  unfold updateProduct, product_update, finite_scalars. step_m.
  destruct (online db); [| done].
  destruct (products db !! UpdateProductInput.id input); [| done].
  by destruct (_ && _).
Qed.

(** C5: for an existing product, [updateProduct] changes nothing but
    the four scalar columns name, price, weight and description of that
    product. When the price and the weight parse to finite numbers it
    succeeds and the row holds the input's name and description and the
    parsed price and weight; when one of them does not, it rejects and
    the row is what it was. In both cases the [isActive] flag and the
    creation time of the row, every other product, the image and
    variant tables, the categories and the product's category
    associations are what they were. *)
Theorem updateProduct_touches_scalars_only db input p :
  online db = true →
  products db !! UpdateProductInput.id input = Some p →
  let id := UpdateProductInput.id input in
  let db' := exec (updateProduct parseFloat input) db in
  let finite := isFinite (parseFloat (UpdateProductInput.price input))
                && isFinite (parseFloat (UpdateProductInput.weight input)) in
  eval (updateProduct parseFloat input) db
  = (if finite then Ok tt else Err ValidationError)
  ∧ products db' !! id
    = Some (if finite
            then Product.mk (UpdateProductInput.name input)
                            (parseFloat (UpdateProductInput.price input))
                            (parseFloat (UpdateProductInput.weight input))
                            (UpdateProductInput.description input)
                            (Product.isActive p) (Product.createdAt p)
            else p)
  ∧ Product.isActive <$> products db' !! id = Some (Product.isActive p)
  ∧ Product.createdAt <$> products db' !! id = Some (Product.createdAt p)
  ∧ (∀ other, other ≠ id → products db' !! other = products db !! other)
  ∧ images db' = images db
  ∧ variants db' = variants db
  ∧ categories db' = categories db
  ∧ categoryToProduct db' = categoryToProduct db
  ∧ imagesOf id db' = imagesOf id db
  ∧ variantsOf id db' = variantsOf id db
  ∧ categoriesOf id db' = categoriesOf id db.
Proof.
  intros Hon Hp id db' finite.
  assert (Hrun : updateProduct parseFloat input db
                 = if finite
                   then (with_products
                           <[id := Product.mk (UpdateProductInput.name input)
                                     (parseFloat (UpdateProductInput.price input))
                                     (parseFloat (UpdateProductInput.weight input))
                                     (UpdateProductInput.description input)
                                     (Product.isActive p) (Product.createdAt p)]> db,
                         Ok tt)
                   else (db, Err ValidationError)).
  { by rewrite updateProduct_cases, Hon, Hp. }
  unfold db', eval, exec. rewrite Hrun.
  destruct finite; cbn.
  - rewrite lookup_insert_eq. repeat split; try reflexivity.
    intros other Hne. by apply lookup_insert_ne.
  - unfold id. rewrite Hp. repeat split; reflexivity.
Qed.

End UpdateClaims.

Lemma updateProduct_touches_scalars_only_witness :
  let input := UpdateProductInput.mk "p1" "Polo" "25" "3" "pique" in
  let db' := exec (updateProduct sample_parseFloat input) sample_db in
  eval (updateProduct sample_parseFloat input) sample_db = Ok tt
  ∧ products db' !! "p1" = Some (Product.mk "Polo" 25%Z 3%Z "pique" true 5%Z)
  ∧ Product.isActive <$> products db' !! "p1" = Some true
  ∧ Product.createdAt <$> products db' !! "p1" = Some 5%Z
  ∧ (∀ other, other ≠ "p1" → products db' !! other = products sample_db !! other)
  ∧ images db' = images sample_db
  ∧ variants db' = variants sample_db
  ∧ categories db' = categories sample_db
  ∧ categoryToProduct db' = categoryToProduct sample_db
  ∧ imagesOf "p1" db' = imagesOf "p1" sample_db
  ∧ variantsOf "p1" db' = variantsOf "p1" sample_db
  ∧ categoriesOf "p1" db' = categoriesOf "p1" sample_db.
Proof.
  exact (updateProduct_touches_scalars_only sample_parseFloat sample_db
           (UpdateProductInput.mk "p1" "Polo" "25" "3" "pique")
           (Product.mk "Shirt" 10%Z 2%Z "cotton" true 5%Z) eq_refl eq_refl).
Defined.

(** The other branch, run: a price that parses to [NaN] makes
    [updateProduct] reject and leave the row as it was. *)
Example updateProduct_non_numeric_price :
  updateProduct sample_parse (UpdateProductInput.mk "p1" "Polo" "abc" "3" "pique") sample_store
  = (sample_store, Err ValidationError).
Proof. reflexivity. Qed.

Section QueryClaims.
Context {float : Type} `{!JsNumber float}.
Implicit Types (db : Db float) (id : string).

(** Awaiting a call and returning its value is the call. *)
Lemma bind_ret_same {A} (m : M float A) db : (x ← m; mret x) db = m db.
Proof.
  unfold mbind, M_bind, bind, mret, M_ret, ret.
  destruct (m db) as [db' [a | e]]; reflexivity.
Qed.

(** C3: on every store, [getActiveProductsByCategory] with the id
    ["all"] gives what [getActiveProducts] gives: the same products with
    the same included relations in the same order (and the same
    rejection when the store cannot be reached). *)
Theorem byCategory_all_is_getActiveProducts db :
  getActiveProductsByCategory "all" db = getActiveProducts db.
Proof.
  unfold getActiveProductsByCategory, getActiveProducts. simpl.
  symmetry. apply bind_ret_same.
Qed.

(** What the common query returns: the active products, newest first,
    each with its images and categories. *)
Lemma getActiveProducts_result db :
  online db = true →
  eval getActiveProducts db
  = Ok (load include_images_categories db
          <$> merge_sort newer_first
                (List.filter (λ kv, Bool.eqb (Product.isActive kv.2) true)
                             (map_to_list (products db)))).
Proof.
  intros Hon. unfold getActiveProducts. unfold eval. rewrite bind_ret_same.
  unfold product_findMany. step_m. rewrite Hon. simpl.
  do 3 f_equal. apply List.filter_ext. intros [k p].
  unfold matches; simpl. by rewrite andb_true_r.
Qed.

(** With any other id the query keeps the active products that are in
    that category. *)
Lemma byCategory_other_filters db id :
  online db = true → id ≠ "all" →
  eval (getActiveProductsByCategory id) db
  = Ok (load include_images_categories db
          <$> merge_sort newer_first
                (List.filter (λ kv, Bool.eqb (Product.isActive kv.2) true
                                    && (bool_decide (is_Some (categories db !! id))
                                        && bool_decide ((id, kv.1) ∈ categoryToProduct db)))
                             (map_to_list (products db)))).
Proof.
  intros Hon Hne. unfold getActiveProductsByCategory.
  destruct (String.eqb_spec id "all") as [-> | _]; [done |].
  unfold eval. rewrite bind_ret_same.
  unfold product_findMany. step_m. by rewrite Hon.
Qed.

(** A [try] whose handler resolves never rejects. *)
Lemma try_catch_resolves {A} (m : M float A) (a : A) db :
  isOk (eval (try_catch m (λ _, mret a)) db) = true.
Proof.
  unfold eval, try_catch, mret, M_ret, ret.
  destruct (m db) as [db' [x | e]]; reflexivity.
Qed.

(** C9: [getBannerText] never rejects. It resolves with what the
    settings lookup resolves with, the row of the key ["banner"] or
    [null] when there is none, and with [null] when the lookup rejects;
    the lookup rejects exactly when the store cannot be reached. The
    store is left as it was. *)
Theorem getBannerText_swallows_errors db :
  eval getBannerText db
  = Ok (match eval (settings_findUnique "banner") db with
        | Ok row => row
        | Err _ => None
        end)
  ∧ eval (settings_findUnique "banner") db
    = (if online db
       then Ok (Settings.mk "banner" <$> settings db !! "banner")
       else Err ClientUnavailable)
  ∧ exec getBannerText db = db.
Proof.
  unfold getBannerText, settings_findUnique. step_m.
  destruct (online db); simpl; auto.
Qed.

End QueryClaims.

(** ** Category membership *)

Section ListFacts.
Context {A : Type}.
Implicit Types (l : list (string * A)) (k : string).

Lemma filter_key_absent l k :
  k ∉ l.*1 → filter (λ kv, kv.1 = k) l = [].
Proof.
  induction l as [| [k' v'] l IH]; intros Hk; [done |].
  rewrite fmap_cons, not_elem_of_cons in Hk. destruct Hk as [Hne Hk].
  simpl in Hne. rewrite filter_cons_False by (simpl; congruence). auto.
Qed.

Lemma filter_key_unique l k v :
  NoDup l.*1 → (k, v) ∈ l → filter (λ kv, kv.1 = k) l = [(k, v)].
Proof.
  induction l as [| [k' v'] l IH]; intros Hnd Hin.
  - by apply elem_of_nil in Hin.
  - rewrite fmap_cons in Hnd. apply NoDup_cons in Hnd as [Hk' Hnd].
    apply elem_of_cons in Hin as [Heq | Hin].
    + injection Heq as <- <-.
      rewrite filter_cons_True by done.
      by rewrite filter_key_absent.
    + assert (k' ≠ k).
      { intros ->. apply Hk'. apply list_elem_of_fmap. by exists (k, v). }
      rewrite filter_cons_False by (simpl; congruence). auto.
Qed.

End ListFacts.

Section AttachClaims.
Context {float : Type} `{!JsNumber float}.
Implicit Types (db : Db float) (id : string).

(** The store after [attachProductToCategory productId c], whether the
    category exists (the product ends up in it alone) or not (the
    second update rejects and the product is left in no category). *)
Lemma attach_effect db productId c p :
  online db = true → products db !! productId = Some p →
  let db' := exec (attachProductToCategory productId c) db in
  online db' = true
  ∧ products db' = products db
  ∧ categories db' = categories db
  ∧ (∀ x q, (x, q) ∈ categoryToProduct db'
            ↔ (q ≠ productId ∧ (x, q) ∈ categoryToProduct db)
              ∨ (q = productId ∧ x = c ∧ is_Some (categories db !! c)))
  ∧ eval (attachProductToCategory productId c) db
    = (if categories db !! c is Some _ then Ok tt else Err RecordNotFound).
Proof.
  intros Hon Hp db'. unfold db', eval, exec, attachProductToCategory, data_categories.
  rewrite !bind_run.
  rewrite (product_update_categories db productId _ p Hon Hp). cbn [forallb written_ids].
  rewrite bind_run.
  rewrite (product_update_categories _ productId _ p) by done.
  cbn [forallb written_ids categories with_categoryToProduct].
  rewrite andb_true_r.
  destruct (categories db !! c) as [cc |] eqn:Hc.
  - rewrite bool_decide_true by eauto. cbn.
    split; [done |]. split; [done |]. split; [done |]. split; [| done].
    intros x q. rewrite !elem_of_union, elem_of_filter, elem_of_singleton.
    cbn. split.
    + intros [[[Hq Hin] | Hin] | Heq].
      * left. done.
      * by apply elem_of_empty in Hin.
      * injection Heq as -> ->. right. eauto.
    + intros [[Hq Hin] | (-> & -> & _)]; [left; left; done | right; done].
  - rewrite bool_decide_false by (intros [? ?]; congruence). cbn.
    split; [done |]. split; [done |]. split; [done |]. split; [| done].
    intros x q. rewrite elem_of_union, elem_of_filter. cbn. split.
    + intros [[Hq Hin] | Hin]; [left; done | by apply elem_of_empty in Hin].
    + intros [[Hq Hin] | (_ & _ & [? ?])]; [left; done | congruence].
Qed.

(** C2: for a product of the store with any category memberships,
    attaching it to category B after attaching it to category A leaves
    it in B alone: the second call succeeds, B is the only category the
    join table relates to the product, and the categories loaded for the
    product are the row of B. The memberships of the other products are
    what they were. *)
Theorem attach_B_after_A_leaves_only_B db productId a b p cb :
  online db = true →
  products db !! productId = Some p →
  categories db !! b = Some cb →
  let db1 := exec (attachProductToCategory productId a) db in
  let db2 := exec (attachProductToCategory productId b) db1 in
  eval (attachProductToCategory productId b) db1 = Ok tt
  ∧ (∀ c, (c, productId) ∈ categoryToProduct db2 ↔ c = b)
  ∧ categoriesOf productId db2 = [(b, cb)]
  ∧ (∀ c q, q ≠ productId →
       (c, q) ∈ categoryToProduct db2 ↔ (c, q) ∈ categoryToProduct db).
Proof.
  intros Hon Hp Hb db1 db2.
  destruct (attach_effect db productId a p Hon Hp)
    as (Hon1 & Hp1 & Hc1 & Hj1 & _).
  fold db1 in Hon1, Hp1, Hc1, Hj1.
  assert (Hp1' : products db1 !! productId = Some p) by (by rewrite Hp1).
  destruct (attach_effect db1 productId b p Hon1 Hp1')
    as (Hon2 & Hp2 & Hc2 & Hj2 & Hr2).
  fold db2 in Hon2, Hp2, Hc2, Hj2.
  rewrite Hc1, Hb in Hr2.
  assert (Hmem : ∀ c, (c, productId) ∈ categoryToProduct db2 ↔ c = b).
  { intros c. rewrite Hj2, Hc1, Hb. split.
    - intros [[Hne _] | (_ & -> & _)]; [done | done].
    - intros ->. right. eauto. }
  split; [exact Hr2 |]. split; [exact Hmem |]. split.
  - unfold categoriesOf. rewrite Hc2, Hc1.
    rewrite (list_filter_iff _ (λ kv, kv.1 = b)) by (intros [k v]; apply Hmem).
    apply filter_key_unique.
    + apply NoDup_fst_map_to_list.
    + by apply elem_of_map_to_list.
  - intros c q Hq. rewrite Hj2, Hj1. split.
    + intros [[_ [[_ Hin] | (-> & _)]] | (-> & _)]; done.
    + intros Hin. left. split; [done |]. left. done.
Qed.

(** When B does not exist the call rejects after the memberships were
    cleared: the product is left in no category. *)
Lemma attach_missing_category_clears db productId b p :
  online db = true →
  products db !! productId = Some p →
  categories db !! b = None →
  eval (attachProductToCategory productId b) db = Err RecordNotFound
  ∧ ∀ c, (c, productId) ∉ categoryToProduct (exec (attachProductToCategory productId b) db).
Proof.
  intros Hon Hp Hb.
  destruct (attach_effect db productId b p Hon Hp) as (_ & _ & _ & Hj & Hr).
  rewrite Hb in Hr. split; [exact Hr |].
  intros c. rewrite Hj, Hb. intros [[Hne _] | (_ & _ & [? ?])]; done.
Qed.

End AttachClaims.

Lemma attach_B_after_A_leaves_only_B_witness :
  let db1 := exec (attachProductToCategory "p1" "c1") sample_db in
  let db2 := exec (attachProductToCategory "p1" "c2") db1 in
  eval (attachProductToCategory "p1" "c2") db1 = Ok tt
  ∧ (∀ c, (c, "p1") ∈ categoryToProduct db2 ↔ c = "c2")
  ∧ categoriesOf "p1" db2 = [("c2", Category.mk "Sale" false)]
  ∧ (∀ c q, q ≠ "p1" →
       (c, q) ∈ categoryToProduct db2 ↔ (c, q) ∈ categoryToProduct sample_db).
Proof.
  apply (attach_B_after_A_leaves_only_B sample_db "p1" "c1" "c2"
           (Product.mk "Shirt" 10%Z 2%Z "cotton" true 5%Z)
           (Category.mk "Sale" false)); reflexivity.
Defined.

(** ** Creating a product *)

Section CreateManyFacts.
Context {V : Type}.
Implicit Types (m : gmap string V) (rows : list V).

Lemma insert_fresh_lookup m : m !! fresh (dom m) = None.
Proof. apply not_elem_of_dom, is_fresh. Qed.

(** The table after [createMany]: the old rows and, under new ids, the
    given rows. *)
Lemma createMany_to_list rows m :
  ∃ new : list (string * V),
    new.*2 = rows ∧ map_to_list (createMany rows m) ≡ₚ new ++ map_to_list m.
Proof.
  revert m. induction rows as [| r rows IH]; intros m.
  - by exists [].
  - destruct (IH (insert_fresh m r)) as (new & Hnew & Hperm).
    exists ((fresh (dom m), r) :: new). split; [by rewrite fmap_cons, Hnew |].
    unfold createMany in *. simpl. rewrite Hperm.
    unfold insert_fresh at 1.
    rewrite (map_to_list_insert m _ r (insert_fresh_lookup m)).
    by rewrite <- Permutation_middle.
Qed.

Lemma createMany_subseteq rows m : m ⊆ createMany rows m.
Proof.
  revert m. induction rows as [| r rows IH]; intros m; [done |].
  unfold createMany in *. simpl.
  transitivity (insert_fresh m r); [| apply IH].
  apply insert_subseteq, insert_fresh_lookup.
Qed.

Lemma createMany_lookup rows m k v :
  createMany rows m !! k = Some v → v ∈ rows ∨ m !! k = Some v.
Proof.
  intros Hk%elem_of_map_to_list.
  destruct (createMany_to_list rows m) as (new & <- & Hperm).
  rewrite Hperm in Hk. apply elem_of_app in Hk as [Hk | Hk].
  - left. apply list_elem_of_fmap. by exists (k, v).
  - right. by apply elem_of_map_to_list.
Qed.

Lemma filter_all (P : string * V → Prop) `{!∀ x, Decision (P x)} (l : list (string * V)) :
  Forall P l → filter P l = l.
Proof.
  induction 1 as [| x l Hx _ IH]; [done |].
  by rewrite filter_cons_True, IH.
Qed.

Lemma filter_none (P : string * V → Prop) `{!∀ x, Decision (P x)} (l : list (string * V)) :
  Forall (λ x, ¬ P x) l → filter P l = [].
Proof.
  induction 1 as [| x l Hx _ IH]; [done |].
  by rewrite filter_cons_False.
Qed.

(** The rows of one owner after [createMany] of rows that all belong to
    [owner], into a table that had none of that owner. *)
Lemma createMany_owned (ownerOf : V → string) owner rows m :
  Forall (λ r, ownerOf r = owner) rows →
  map_Forall (λ _ r, ownerOf r ≠ owner) m →
  (filter (λ kv, ownerOf kv.2 = owner) (map_to_list (createMany rows m))).*2 ≡ₚ rows.
Proof.
  intros Hrows Hm.
  destruct (createMany_to_list rows m) as (new & Hnew & Hperm).
  rewrite Hperm, filter_app.
  rewrite (filter_all _ new), (filter_none _ (map_to_list m)).
  - by rewrite app_nil_r, Hnew.
  - apply Forall_forall. intros [k r] Hin%elem_of_map_to_list. simpl.
    by apply (Hm k r).
  - subst rows. clear -Hrows. induction new as [| [k r] new IH]; [done |].
    rewrite fmap_cons in Hrows. apply Forall_cons in Hrows as [Hr Hrows].
    constructor; auto.
Qed.

(** The rows of any other owner are the ones it had. *)
Lemma createMany_others (ownerOf : V → string) owner other rows m :
  other ≠ owner →
  Forall (λ r, ownerOf r = owner) rows →
  filter (λ kv, ownerOf kv.2 = other) (map_to_list (createMany rows m))
  ≡ₚ filter (λ kv, ownerOf kv.2 = other) (map_to_list m).
Proof.
  intros Hne Hrows.
  destruct (createMany_to_list rows m) as (new & Hnew & Hperm).
  rewrite Hperm, filter_app, (filter_none _ new); [done |].
  subst rows. clear -Hrows Hne. induction new as [| [k r] new IH]; [done |].
  rewrite fmap_cons in Hrows. apply Forall_cons in Hrows as [Hr Hrows].
  constructor; [simpl in *; congruence | auto].
Qed.

End CreateManyFacts.

Section CreateClaims.
Context {float : Type} `{!JsNumber float}.
Variable parseFloat : string → float.
Variable isActive_default : bool.
Implicit Types (db : Db float) (id : string).

(** The single write [addProduct] makes on a reachable store. *)
Lemma addProduct_run db now input :
  online db = true →
  isFinite (parseFloat (ProductInput.price input)) = true →
  isFinite (parseFloat (ProductInput.weight input)) = true →
  let id := fresh (dom (products db)) in
  addProduct parseFloat isActive_default now input db
  = (mkDb (<[id := Product.mk (ProductInput.name input)
                              (parseFloat (ProductInput.price input))
                              (parseFloat (ProductInput.weight input))
                              (ProductInput.description input)
                              isActive_default now]> (products db))
          (createMany ((λ image, Image.mk (ImageField.src image)
                                          (ProductInput.name input) id now)
                         <$> ProductInput.image input) (images db))
          (createMany ((λ variant, Variant.mk (VariantField.name variant)
                                              (VariantField.imageSrc variant)
                                              "color" id)
                         <$> ProductInput.variant input) (variants db))
          (categories db) (categoryToProduct db) (settings db) (online db),
     Ok tt).
Proof.
  intros Hon Hprice Hweight id. unfold addProduct, product_create. step_m.
  rewrite Hon. cbn. rewrite Hprice, Hweight. cbn.
  fold id. rewrite <- !list_fmap_compose. rewrite ?Hon. reflexivity.
Qed.

(** A price or a weight that does not parse to a finite number: the
    call rejects and nothing is written, on whatever store. *)
Lemma addProduct_not_finite db now input :
  isFinite (parseFloat (ProductInput.price input))
  && isFinite (parseFloat (ProductInput.weight input)) = false →
  isOk (eval (addProduct parseFloat isActive_default now input) db) = false
  ∧ exec (addProduct parseFloat isActive_default now input) db = db.
Proof.
  intros Hnot. unfold addProduct, product_create. step_m.
  destruct (online db); [| done]. cbn. by rewrite Hnot.
Qed.

(** When the store cannot be reached nothing is written. *)
Lemma addProduct_offline db now input :
  online db = false →
  addProduct parseFloat isActive_default now input db = (db, Err ClientUnavailable).
Proof.
  intros Hoff. unfold addProduct, product_create. step_m. by rewrite Hoff.
Qed.

(** The write keeps the foreign keys: the new rows reference the new
    product. *)
Lemma addProduct_keeps_foreign_keys db now input :
  online db = true →
  isFinite (parseFloat (ProductInput.price input)) = true →
  isFinite (parseFloat (ProductInput.weight input)) = true →
  foreign_keys db →
  foreign_keys (exec (addProduct parseFloat isActive_default now input) db).
Proof.
  intros Hon Hprice Hweight [Himg Hvar]. unfold exec.
  rewrite (addProduct_run db now input Hon Hprice Hweight). cbn [fst].
  split; intros k v [Hnew | Hold]%createMany_lookup; cbn [products].
  - apply list_elem_of_fmap in Hnew as (i & -> & _). cbn.
    rewrite lookup_insert_eq. eauto.
  - apply lookup_insert_is_Some'. right. by apply (Himg k v).
  - apply list_elem_of_fmap in Hnew as (i & -> & _). cbn.
    rewrite lookup_insert_eq. eauto.
  - apply lookup_insert_is_Some'. right. by apply (Hvar k v).
Qed.

(** C1 (as amended): on a reachable store that respects its foreign
    keys, for every input whose price and weight strings parse to
    finite numbers, [addProduct] succeeds and its one write persists,
    under an id that was not in use, a product with the input's name and
    description and with price and weight the [parseFloat] of the input
    strings; the image records of that product are the input images,
    each with [alt] the product name, and its variant records are the
    input variants, each with type ["color"] (as rows of a table: up to
    the order in which the store lists them). Every other product, and
    the images and variants of every other product, are what they
    were. *)
Theorem addProduct_persists_product db now input :
  online db = true →
  foreign_keys db →
  isFinite (parseFloat (ProductInput.price input)) = true →
  isFinite (parseFloat (ProductInput.weight input)) = true →
  let db' := exec (addProduct parseFloat isActive_default now input) db in
  eval (addProduct parseFloat isActive_default now input) db = Ok tt
  ∧ ∃ id,
      products db !! id = None
      ∧ products db'
        = <[id := Product.mk (ProductInput.name input)
                             (parseFloat (ProductInput.price input))
                             (parseFloat (ProductInput.weight input))
                             (ProductInput.description input)
                             isActive_default now]> (products db)
      ∧ (imagesOf id db').*2
        ≡ₚ (λ image, Image.mk (ImageField.src image) (ProductInput.name input) id now)
             <$> ProductInput.image input
      ∧ (variantsOf id db').*2
        ≡ₚ (λ variant, Variant.mk (VariantField.name variant)
                                  (VariantField.imageSrc variant) "color" id)
             <$> ProductInput.variant input
      ∧ (∀ other, other ≠ id →
           imagesOf other db' ≡ₚ imagesOf other db
           ∧ variantsOf other db' ≡ₚ variantsOf other db)
      ∧ images db ⊆ images db'
      ∧ variants db ⊆ variants db'
      ∧ categories db' = categories db
      ∧ categoryToProduct db' = categoryToProduct db.
Proof.
  intros Hon [Himg Hvar] Hprice Hweight db'. unfold db', eval, exec.
  rewrite (addProduct_run db now input Hon Hprice Hweight). cbn [fst snd].
  split; [reflexivity |].
  set (id := fresh (dom (products db))).
  assert (Hid : products db !! id = None) by apply insert_fresh_lookup.
  exists id. split; [exact Hid |]. split; [reflexivity |].
  unfold imagesOf, variantsOf. cbn [images variants categories categoryToProduct].
  split; [| split; [| split; [| split; [| split; [| done]]]]].
  - apply (createMany_owned Image.productId).
    + apply Forall_fmap, Forall_true. done.
    + intros k i Hk Heq. destruct (Himg k i Hk) as [p Hp].
      rewrite Heq in Hp. congruence.
  - apply (createMany_owned Variant.productId).
    + apply Forall_fmap, Forall_true. done.
    + intros k v Hk Heq. destruct (Hvar k v Hk) as [p Hp].
      rewrite Heq in Hp. congruence.
  - intros other Hne. split.
    + apply (createMany_others Image.productId id); [done |].
      apply Forall_fmap, Forall_true. done.
    + apply (createMany_others Variant.productId id); [done |].
      apply Forall_fmap, Forall_true. done.
  - apply createMany_subseteq.
  - apply createMany_subseteq.
Qed.

End CreateClaims.

Lemma addProduct_persists_product_witness :
  let db' := exec (addProduct sample_parseFloat true 9%Z sample_input) sample_db in
  eval (addProduct sample_parseFloat true 9%Z sample_input) sample_db = Ok tt
  ∧ ∃ id,
      products sample_db !! id = None
      ∧ products db'
        = <[id := Product.mk "Socks" 12%Z 1%Z "wool socks" true 9%Z]> (products sample_db)
      ∧ (imagesOf id db').*2
        ≡ₚ (λ image, Image.mk (ImageField.src image) "Socks" id 9%Z)
             <$> ProductInput.image sample_input
      ∧ (variantsOf id db').*2
        ≡ₚ (λ variant, Variant.mk (VariantField.name variant)
                                  (VariantField.imageSrc variant) "color" id)
             <$> ProductInput.variant sample_input
      ∧ (∀ other, other ≠ id →
           imagesOf other db' ≡ₚ imagesOf other sample_db
           ∧ variantsOf other db' ≡ₚ variantsOf other sample_db)
      ∧ images sample_db ⊆ images db'
      ∧ variants sample_db ⊆ variants db'
      ∧ categories db' = categories sample_db
      ∧ categoryToProduct db' = categoryToProduct sample_db.
Proof.
  apply (addProduct_persists_product sample_parseFloat true sample_db 9%Z sample_input).
  - reflexivity.
  - refine (@bool_decide_unpack _ (foreign_keys_dec sample_db) _). vm_compute. exact I.
  - reflexivity.
  - reflexivity.
Defined.

(** C1 as it was stated, for every valid input, does not hold: the
    input below is accepted by the schema, its price ["abc"] parses to
    [NaN], and [addProduct] rejects it and persists nothing. *)
Lemma addProduct_rejects_non_numeric_price :
  schema sample_values_abc = Some sample_input_abc
  ∧ sample_parse (ProductInput.price sample_input_abc) = NaN
  ∧ eval (addProduct sample_parse true 9%Z sample_input_abc) sample_store
    = Err ValidationError
  ∧ exec (addProduct sample_parse true 9%Z sample_input_abc) sample_store = sample_store.
Proof. repeat split; reflexivity. Qed.

(** ** The variant batch *)

Section VariantClaims.
Context {float : Type} `{!JsNumber float}.
Implicit Types (db : Db float) (id : string).



(** The mutation resolves whatever its entries do. *)
Lemma addVariant_always_resolves db (batch : list VariantEntry.t) :
  eval (addVariant batch) db = Ok tt.
Proof. reflexivity. Qed.


End VariantClaims.


(** * Properties of the form component *)

(** ** The URL rewrite *)

Lemma prefix_append (p x : string) : String.prefix p (p +:+ x) = true.
Proof.
  induction p as [| c p IH]; simpl; [by destruct x |].
  destruct (ascii_dec c c); [exact IH | congruence].
Qed.

Lemma skip_append (p x : string) : skip (String.length p) (p +:+ x) = x.
Proof. induction p as [| c p IH]; simpl; [by destruct x | exact IH]. Qed.

(** A string that starts with [p] is [p] followed by the rest. *)
Lemma prefix_split (p s : string) :
  String.prefix p s = true → s = p +:+ skip (String.length p) s.
Proof.
  revert s. induction p as [| c p IH]; intros s H; simpl in *.
  - by destruct s.
  - destruct s as [| d s]; [discriminate | simpl in *].
    destruct (ascii_dec c d) as [-> |]; [| discriminate].
    change (String d s = String d (p +:+ skip (String.length p) s)).
    f_equal. by apply IH.
Qed.

(** Where [s] starts with the pattern, [replace] swaps that first
    occurrence and keeps what follows. *)
Lemma replace_prefix (p r s : string) :
  String.prefix p s = true → replace p r s = r +:+ skip (String.length p) s.
Proof. intros H. destruct s; cbn [replace]; by rewrite H. Qed.

(** The rewrite of a URL under the storage domain: the CDN host followed
    by the same path. *)
Lemma cloudFrontUrl_of_s3 (path : string) :
  cloudFrontUrl (s3_host +:+ path) = cloudFront_host +:+ path.
Proof.
  unfold cloudFrontUrl.
  rewrite replace_prefix by apply prefix_append.
  by rewrite skip_append.
Qed.

Lemma uses_cloudFront_host (path : string) :
  uses_cloudFront (cloudFront_host +:+ path) = true.
Proof.
  unfold uses_cloudFront. rewrite prefix_append. reflexivity.
Qed.

Lemma cloudFrontUrl_ok (url : string) :
  String.prefix s3_host url = true → uses_cloudFront (cloudFrontUrl url) = true.
Proof.
  intros H. rewrite (prefix_split _ _ H), cloudFrontUrl_of_s3.
  apply uses_cloudFront_host.
Qed.

(** ** The handlers *)

Section FormFacts.
Context {File : Type}.
Variable uploadToS3 : File → string.
Implicit Types (c : @Component File) (files : list File).

(** The loop of [onProductImageChange] is a map over the files. *)
Lemma upload_loop files (acc : list File * list string) :
  foldl (upload_step uploadToS3) acc files
  = (acc.1 ++ files, acc.2 ++ ((λ f, cloudFrontUrl (uploadToS3 f)) <$> files)).
Proof.
  revert acc. induction files as [| f files IH]; intros [a b]; simpl.
  - by rewrite !app_nil_r.
  - rewrite IH. simpl. by rewrite <- !app_assoc.
Qed.

Lemma onProductImageChange_image files c :
  FormValues.image (values (onProductImageChange uploadToS3 (Some files) c))
  = (λ f, ImageField.mk (cloudFrontUrl (uploadToS3 f))) <$> files.
Proof.
  unfold onProductImageChange. rewrite upload_loop. simpl.
  by rewrite <- list_fmap_compose.
Qed.

Lemma onProductImageChange_variant files c :
  FormValues.variant (values (onProductImageChange uploadToS3 (Some files) c))
  = FormValues.variant (values c).
Proof. unfold onProductImageChange. by rewrite upload_loop. Qed.

(** [handleAddMoreImages] keeps the image list and appends one URL: the
    rewritten upload of the first file of the selection. *)
Lemma handleAddMoreImages_image file rest c :
  FormValues.image (values (handleAddMoreImages uploadToS3 (Some (file :: rest)) c))
  = FormValues.image (values c) ++ [ImageField.mk (cloudFrontUrl (uploadToS3 file))].
Proof.
  unfold handleAddMoreImages. simpl. by destruct (imagePreviews c).
Qed.

Lemma set_variant_ok index f (l : list (option VariantRow.t)) :
  (∀ r, variant_ok (Some r) → variant_ok (Some (f r))) →
  Forall variant_ok l → Forall variant_ok (set_variant index f l).
Proof.
  intros Hf Hl. unfold set_variant.
  assert (Hnone : variant_ok None) by (intros r url ?; discriminate).
  assert (Hl' : Forall variant_ok (l ++ replicate (S index - length l) None)).
  { apply Forall_app. split; [done |]. by apply Forall_replicate. }
  apply Forall_insert; [done |].
  apply Hf.
  rewrite list_lookup_total_alt.
  destruct ((l ++ replicate (S index - length l) None) !! index) as [[r |] |] eqn:Hi; simpl.
  - apply (Forall_lookup_1 _ _ _ _ Hl' Hi).
  - intros r url [= <-] [=].
  - intros r url [= <-] [=].
Qed.

Section Rewritten.
Hypothesis upload_under_s3 : ∀ file, String.prefix s3_host (uploadToS3 file) = true.

(** Every handler keeps the form values either empty or on the CDN. *)
Lemma handle_ok c e : form_ok (values c) → form_ok (values (handle uploadToS3 c e)).
Proof.
  intros [Hi Hv]. destruct e as [files | files | files index | | index | field s | index s];
    simpl.
  - destruct files as [files |]; [| done].
    split; [| by rewrite onProductImageChange_variant].
    rewrite onProductImageChange_image. apply Forall_fmap, Forall_true.
    intros f. right. simpl. by apply cloudFrontUrl_ok.
  - destruct files as [[| file rest] |]; [done | | done].
    split.
    + rewrite handleAddMoreImages_image. apply Forall_app. split; [done |].
      constructor; [| done]. right. simpl. by apply cloudFrontUrl_ok.
    + unfold handleAddMoreImages. simpl. by destruct (imagePreviews c).
  - destruct files as [[| file rest] |]; [done | | done].
    split; [exact Hi |]. simpl.
    apply set_variant_ok; [| done].
    intros r _ r' url [= <-]. simpl. intros [= <-].
    right. by apply cloudFrontUrl_ok.
  - split; [exact Hi |]. simpl. apply Forall_app. split; [done |].
    constructor; [| done]. intros r url [= <-]. simpl. intros [= <-]. by left.
  - split; [exact Hi |]. simpl. by apply Forall_delete.
  - by destruct field.
  - split; [exact Hi |]. simpl.
    apply set_variant_ok; [| done].
    intros r Hr r' url [= <-]. simpl. intros Hurl. by apply (Hr r url).
Qed.

Lemma run_ok events : form_ok (values (run uploadToS3 events)).
Proof.
  unfold run. induction events as [| e events IH] using rev_ind.
  - split; simpl.
    + constructor; [by left | done].
    + constructor; [| done]. intros r url [= <-]. simpl. intros [= <-]. by left.
  - rewrite foldl_app. simpl. by apply handle_ok.
Qed.

End Rewritten.
End FormFacts.

(** ** Submission *)

Lemma Forall2_transfer {A B} (R : A → B → Prop) (P : A → Prop) (Q : B → Prop) l k :
  (∀ x y, P x → R x y → Q y) → Forall P l → Forall2 R l k → Forall Q k.
Proof.
  intros HPQ HP HR. induction HR as [| x y l k Hxy _ IH]; [done |].
  apply Forall_cons in HP as [Hx HP]. constructor; eauto.
Qed.

Lemma string_min_max_nonempty hi s : string_min_max 1 hi s = true → s ≠ "".
Proof. intros H ->. discriminate. Qed.

(** A payload the schema accepts, from values that are empty or on the
    CDN, has every image URL on the CDN. *)
Lemma schema_ok (v : FormValues.t) payload :
  form_ok v → schema v = Some payload →
  Forall (λ i, uses_cloudFront (ImageField.src i) = true) (ProductInput.image payload)
  ∧ Forall (λ x, uses_cloudFront (VariantField.imageSrc x) = true) (ProductInput.variant payload).
Proof.
  intros [Hi Hv] Hs. unfold schema in Hs.
  destruct (_ && _); [| discriminate].
  destruct (mapM schema_image (FormValues.image v)) as [image |] eqn:Hmi; [| discriminate].
  destruct (mapM schema_variant (FormValues.variant v)) as [variant |] eqn:Hmv;
    [| discriminate].
  simpl in Hs. injection Hs as <-. simpl.
  apply mapM_Some in Hmi, Hmv. split.
  - refine (Forall2_transfer _ _ _ _ _ _ Hi Hmi).
    intros x y [Hempty | Hcdn] Hxy; unfold schema_image in Hxy;
      destruct (string_min_max 1 1000 (ImageField.src x)) eqn:Hlen; try discriminate;
      injection Hxy as <-; [| done].
    by apply string_min_max_nonempty in Hlen.
  - refine (Forall2_transfer _ _ _ _ _ _ Hv Hmv).
    intros [[[name |] [url |]] |] y Hok Hxy; simpl in Hxy; try discriminate.
    destruct (string_min_max 1 100 name); [| discriminate]. simpl in Hxy.
    destruct (string_min_max 1 10000 url) eqn:Hlen; [| discriminate].
    injection Hxy as <-. simpl.
    destruct (Hok _ url eq_refl eq_refl) as [-> | Hcdn]; [discriminate | done].
Qed.

(** C6: whatever the operator did with the dialog, if every upload
    answered with a URL under the storage domain then every image URL of
    a payload the form submits, of the product images and of the
    variants, starts with the CDN host and does not start with the
    storage host: the handlers write only rewritten URLs into the
    form. *)
Theorem submitted_urls_use_cloudFront {File : Type} (uploadToS3 : File → string)
    (events : list Event) (payload : ProductInput.t) :
  (∀ file, String.prefix s3_host (uploadToS3 file) = true) →
  submit (run uploadToS3 events) = Some payload →
  Forall (λ i, String.prefix cloudFront_host (ImageField.src i) = true
               ∧ String.prefix s3_host (ImageField.src i) = false)
         (ProductInput.image payload)
  ∧ Forall (λ v, String.prefix cloudFront_host (VariantField.imageSrc v) = true
                 ∧ String.prefix s3_host (VariantField.imageSrc v) = false)
           (ProductInput.variant payload).
Proof.
  intros Hup Hsubmit.
  destruct (schema_ok _ _ (run_ok uploadToS3 Hup events) Hsubmit) as [Hi Hv].
  split; (eapply Forall_impl; [eassumption |]); intros x Hx; simpl in Hx;
    unfold uses_cloudFront in Hx; apply andb_true_iff in Hx as [H1 H2];
    by apply negb_true_iff in H2.
Qed.

Lemma submitted_urls_use_cloudFront_witness :
  let payload :=
    ProductInput.mk "Socks" "12" "1" "wool socks"
      [ImageField.mk "https://d1sah57fmj9klu.cloudfront.net/next-s3-uploads/socks-1.png";
       ImageField.mk "https://d1sah57fmj9klu.cloudfront.net/next-s3-uploads/socks-2.png";
       ImageField.mk "https://d1sah57fmj9klu.cloudfront.net/next-s3-uploads/socks-3.png"]
      [VariantField.mk "blue" "https://d1sah57fmj9klu.cloudfront.net/next-s3-uploads/blue.png"] in
  Forall (λ i, String.prefix cloudFront_host (ImageField.src i) = true
               ∧ String.prefix s3_host (ImageField.src i) = false)
         (ProductInput.image payload)
  ∧ Forall (λ v, String.prefix cloudFront_host (VariantField.imageSrc v) = true
                 ∧ String.prefix s3_host (VariantField.imageSrc v) = false)
           (ProductInput.variant payload).
Proof.
  apply (submitted_urls_use_cloudFront sample_upload sample_events).
  - intros file. reflexivity.
  - reflexivity.
Defined.

(** C8: the add-more picker with two files selected, after an initial
    batch of one image. The handler uploads the first file of the
    selection, rewrites its URL and appends it to the image list; the
    second file is neither uploaded nor appended. *)
Theorem handleAddMoreImages_drops_later_files :
  let c := run sample_upload [ProductImageChange (Some ["socks-1.png"])] in
  let c' := handleAddMoreImages sample_upload (Some ["socks-2.png"; "socks-3.png"]) c in
  FormValues.image (values c')
  = (FormValues.image (values c)
     ++ [ImageField.mk "https://d1sah57fmj9klu.cloudfront.net/next-s3-uploads/socks-2.png"])
  ∧ (ImageField.mk (cloudFrontUrl (sample_upload "socks-3.png"))
     ∉ FormValues.image (values c'))
  ∧ imagePreviews c' = Some ["socks-1.png"; "socks-2.png"].
Proof.
  split; [reflexivity |]. split; [| reflexivity].
  intros Hin. vm_compute in Hin.
  repeat (apply elem_of_cons in Hin as [Heq | Hin]; [discriminate Heq |]).
  by apply elem_of_nil in Hin.
Qed.

(** * Further properties of the router *)

(** ** The product queries *)

Section ListFilterFacts.
Context {A : Type}.
Implicit Types (f : A → bool) (l : list A).

(** The two filters of lists agree. *)
Lemma List_filter_filter f l : List.filter f l = filter (λ x, f x = true) l.
Proof.
  induction l as [| x l IH]; [done |]. simpl. rewrite filter_cons, IH.
  destruct (f x) eqn:Hx; case_decide; congruence.
Qed.

Lemma List_filter_all f l : (∀ x, f x = true) → List.filter f l = l.
Proof.
  intros Hf. induction l as [| x l IH]; [done |]. simpl. by rewrite Hf, IH.
Qed.

Lemma List_filter_ext_in f g l :
  (∀ x, x ∈ l → f x = g x) → List.filter f l = List.filter g l.
Proof.
  induction l as [| x l IH]; intros H; [done |]. simpl.
  rewrite (H x) by left. rewrite IH; [done |].
  intros y Hy. apply H. by right.
Qed.

End ListFilterFacts.

Lemma filter_keys_NoDup {A} (f : string * A → bool) (l : list (string * A)) :
  NoDup l.*1 → NoDup (List.filter f l).*1.
Proof.
  induction l as [| [k v] l IH]; intros Hnd; [done |].
  rewrite fmap_cons in Hnd. apply NoDup_cons in Hnd as [Hk Hnd]. simpl.
  destruct (f (k, v)); [| auto].
  rewrite fmap_cons. apply NoDup_cons. split; [| auto].
  intros Hin. apply Hk.
  apply list_elem_of_fmap in Hin as ([k' v'] & -> & Hin').
  rewrite List_filter_filter in Hin'. apply list_elem_of_filter in Hin' as [_ Hin'].
  apply list_elem_of_fmap. by exists (k', v').
Qed.

Section ProductQueries.
Context {float : Type} `{!JsNumber float}.
Implicit Types (db : Db float) (id : string).

#[local] Instance newer_first_total : Total (@newer_first float).
Proof. intros a b. unfold newer_first. lia. Qed.

#[local] Instance newer_first_trans : Transitive (@newer_first float).
Proof. intros a b c. unfold newer_first. lia. Qed.

(** The product and id of a payload. *)
Lemma load_pairs inc db (rows : list (string * Product.t float)) :
  (λ r, (ProductPayload.id r, ProductPayload.row r)) <$> (load inc db <$> rows) = rows.
Proof.
  induction rows as [| [k p] rows IH]; [done |].
  rewrite !fmap_cons, IH. reflexivity.
Qed.

(** What [findMany] with [orderBy: { createdAt: 'desc' }] resolves with
    on a reachable store: the rows that match, each once, the newest
    first, each loaded with the relations asked for. *)
Lemma product_findMany_desc db w inc :
  online db = true →
  ∃ rows,
    eval (product_findMany w inc (Some desc)) db = Ok (load inc db <$> rows)
    ∧ rows ≡ₚ List.filter (matches w db) (map_to_list (products db))
    ∧ StronglySorted newer_first rows.
Proof.
  intros Hon.
  exists (merge_sort newer_first (List.filter (matches w db) (map_to_list (products db)))).
  split; [| split].
  - unfold product_findMany. step_m. by rewrite Hon.
  - apply merge_sort_Permutation.
  - apply (StronglySorted_merge_sort _).
Qed.

Lemma payloads_sorted inc db (rows : list (string * Product.t float)) :
  StronglySorted newer_first rows →
  StronglySorted (λ a b, (Product.createdAt (ProductPayload.row b)
                          ≤ Product.createdAt (ProductPayload.row a))%Z)
                 (load inc db <$> rows).
Proof. apply StronglySorted_fmap. intros [k p] [k' p'] H. exact H. Qed.

(** X1: on a reachable store [getAll] resolves with every product of
    the store, each exactly once, ordered from the newest to the oldest;
    each comes with its images and without its categories. *)
Theorem getAll_every_product_newest_first db :
  online db = true →
  ∃ res,
    eval getAll db = Ok res
    ∧ (λ r, (ProductPayload.id r, ProductPayload.row r)) <$> res
      ≡ₚ map_to_list (products db)
    ∧ NoDup (ProductPayload.id <$> res)
    ∧ StronglySorted (λ a b, (Product.createdAt (ProductPayload.row b)
                              ≤ Product.createdAt (ProductPayload.row a))%Z) res
    ∧ Forall (λ r, ProductPayload.images r = Some (imagesOf (ProductPayload.id r) db)
                   ∧ ProductPayload.categories r = None) res.
Proof.
  intros Hon.
  destruct (product_findMany_desc db (ProductWhere.mk None None None)
              (ProductInclude.mk true false) Hon) as (rows & Hres & Hperm & Hsorted).
  rewrite List_filter_all in Hperm by done.
  exists (load (ProductInclude.mk true false) db <$> rows).
  split; [| split; [| split; [| split]]].
  - unfold getAll, eval. rewrite bind_ret_same. exact Hres.
  - by rewrite load_pairs.
  - assert (Hids : ProductPayload.id <$> (load (ProductInclude.mk true false) db <$> rows)
                   = rows.*1).
    { rewrite <- list_fmap_compose. apply list_fmap_ext. by intros i [k p]. }
    rewrite Hids, Hperm. apply NoDup_fst_map_to_list.
  - by apply payloads_sorted.
  - apply Forall_fmap, Forall_true. by intros [k p].
Qed.

(** X2: on a reachable store [getActiveProducts] resolves with exactly
    the products whose [isActive] is set, each once, newest first, each
    with its images and its categories. *)
Theorem getActiveProducts_exactly_the_active db :
  online db = true →
  ∃ res,
    eval getActiveProducts db = Ok res
    ∧ (∀ id p, (id, p) ∈ (λ r, (ProductPayload.id r, ProductPayload.row r)) <$> res
               ↔ products db !! id = Some p ∧ Product.isActive p = true)
    ∧ NoDup (ProductPayload.id <$> res)
    ∧ StronglySorted (λ a b, (Product.createdAt (ProductPayload.row b)
                              ≤ Product.createdAt (ProductPayload.row a))%Z) res
    ∧ Forall (λ r, ProductPayload.images r = Some (imagesOf (ProductPayload.id r) db)
                   ∧ ProductPayload.categories r
                     = Some (categoriesOf (ProductPayload.id r) db)) res.
Proof.
  intros Hon.
  destruct (product_findMany_desc db where_active include_images_categories Hon)
    as (rows & Hres & Hperm & Hsorted).
  exists (load include_images_categories db <$> rows).
  split; [| split; [| split; [| split]]].
  - unfold getActiveProducts, eval. rewrite bind_ret_same. exact Hres.
  - intros id p. rewrite load_pairs, Hperm, List_filter_filter.
    rewrite list_elem_of_filter, elem_of_map_to_list.
    unfold matches; simpl. rewrite andb_true_r.
    destruct (Product.isActive p); simpl; intuition congruence.
  - assert (Hids : ProductPayload.id <$> (load include_images_categories db <$> rows)
                   = rows.*1).
    { rewrite <- list_fmap_compose. apply list_fmap_ext. by intros i [k p]. }
    rewrite Hids, Hperm. apply filter_keys_NoDup, NoDup_fst_map_to_list.
  - by apply payloads_sorted.
  - apply Forall_fmap, Forall_true. by intros [k p].
Qed.

(** X3: with an id other than ["all"], [getActiveProductsByCategory]
    resolves with exactly the active products the join table relates to
    that category, newest first; for an id that names no category the
    list is empty (the call does not reject). *)
Theorem byCategory_exactly_the_active_members db category :
  online db = true →
  category ≠ "all" →
  ∃ res,
    eval (getActiveProductsByCategory category) db = Ok res
    ∧ (∀ id p, (id, p) ∈ (λ r, (ProductPayload.id r, ProductPayload.row r)) <$> res
               ↔ products db !! id = Some p ∧ Product.isActive p = true
                 ∧ is_Some (categories db !! category)
                 ∧ (category, id) ∈ categoryToProduct db)
    ∧ StronglySorted (λ a b, (Product.createdAt (ProductPayload.row b)
                              ≤ Product.createdAt (ProductPayload.row a))%Z) res
    ∧ (categories db !! category = None → res = []).
Proof.
  intros Hon Hne.
  destruct (product_findMany_desc db (where_active_in category)
              include_images_categories Hon) as (rows & Hres & Hperm & Hsorted).
  exists (load include_images_categories db <$> rows).
  assert (Hmem : ∀ id p, (id, p) ∈ rows
                 ↔ products db !! id = Some p ∧ Product.isActive p = true
                   ∧ is_Some (categories db !! category)
                   ∧ (category, id) ∈ categoryToProduct db).
  { intros id p. rewrite Hperm, List_filter_filter.
    rewrite list_elem_of_filter, elem_of_map_to_list.
    unfold matches; simpl.
    rewrite !andb_true_iff, !bool_decide_eq_true.
    destruct (Product.isActive p); simpl; intuition congruence. }
  split; [| split; [| split]].
  - unfold getActiveProductsByCategory, eval.
    destruct (String.eqb_spec category "all") as [-> | _]; [done |].
    rewrite bind_ret_same. exact Hres.
  - intros id p. rewrite load_pairs. apply Hmem.
  - by apply payloads_sorted.
  - intros Hnone. destruct rows as [| [k p] rows]; [done |].
    assert (Hin : (k, p) ∈ (k, p) :: rows) by left.
    apply Hmem in Hin as (_ & _ & [c Hc] & _). congruence.
Qed.

End ProductQueries.

Lemma getAll_every_product_newest_first_witness :
  ∃ res,
    eval getAll sample_db = Ok res
    ∧ (λ r, (ProductPayload.id r, ProductPayload.row r)) <$> res
      ≡ₚ map_to_list (products sample_db)
    ∧ NoDup (ProductPayload.id <$> res)
    ∧ StronglySorted (λ a b, (Product.createdAt (ProductPayload.row b)
                              ≤ Product.createdAt (ProductPayload.row a))%Z) res
    ∧ Forall (λ r, ProductPayload.images r = Some (imagesOf (ProductPayload.id r) sample_db)
                   ∧ ProductPayload.categories r = None) res.
Proof. apply (getAll_every_product_newest_first sample_db). reflexivity. Defined.

Lemma getActiveProducts_exactly_the_active_witness :
  ∃ res,
    eval getActiveProducts sample_db = Ok res
    ∧ (∀ id p, (id, p) ∈ (λ r, (ProductPayload.id r, ProductPayload.row r)) <$> res
               ↔ products sample_db !! id = Some p ∧ Product.isActive p = true)
    ∧ NoDup (ProductPayload.id <$> res)
    ∧ StronglySorted (λ a b, (Product.createdAt (ProductPayload.row b)
                              ≤ Product.createdAt (ProductPayload.row a))%Z) res
    ∧ Forall (λ r, ProductPayload.images r = Some (imagesOf (ProductPayload.id r) sample_db)
                   ∧ ProductPayload.categories r
                     = Some (categoriesOf (ProductPayload.id r) sample_db)) res.
Proof. apply (getActiveProducts_exactly_the_active sample_db). reflexivity. Defined.

Lemma byCategory_exactly_the_active_members_witness :
  ∃ res,
    eval (getActiveProductsByCategory "c1") sample_db = Ok res
    ∧ (∀ id p, (id, p) ∈ (λ r, (ProductPayload.id r, ProductPayload.row r)) <$> res
               ↔ products sample_db !! id = Some p ∧ Product.isActive p = true
                 ∧ is_Some (categories sample_db !! "c1")
                 ∧ ("c1", id) ∈ categoryToProduct sample_db)
    ∧ StronglySorted (λ a b, (Product.createdAt (ProductPayload.row b)
                              ≤ Product.createdAt (ProductPayload.row a))%Z) res
    ∧ (categories sample_db !! "c1" = None → res = []).
Proof.
  apply (byCategory_exactly_the_active_members sample_db "c1");
    [reflexivity | discriminate].
Defined.

Section DetailQueries.
Context {float : Type} `{!JsNumber float}.
Context (collate : relation string) `{!RelDecision collate}.
Implicit Types (db : Db float) (id : string).

Lemma name_desc_total : Total collate → Total (name_desc collate).
Proof. intros Htot a b. unfold name_desc. destruct (Htot (Variant.name a.2) (Variant.name b.2)); auto. Qed.

Lemma name_asc_total : Total collate → Total (name_asc collate).
Proof. intros Htot a b. unfold name_asc. apply Htot. Qed.

(** X4: on a reachable store [getProduct] resolves with [null] for an
    id that names no product (it does not reject); for a product of the
    store it resolves with the product, its images, its categories and
    its variants, the variants in descending order of their names under
    the collation of the database. *)
Theorem getProduct_null_or_detail db id :
  Total collate →
  online db = true →
  (products db !! id = None → eval (getProduct collate id) db = Ok None)
  ∧ (∀ p, products db !! id = Some p →
       ∃ vs, eval (getProduct collate id) db
             = Ok (Some (ProductDetail.mk id p (imagesOf id db) (categoriesOf id db) vs))
             ∧ vs ≡ₚ variantsOf id db
             ∧ Sorted (λ a b, collate (Variant.name b.2) (Variant.name a.2)) vs).
Proof.
  intros Htot Hon.
  assert (Hrun : eval (getProduct collate id) db
                 = Ok ((λ p, ProductDetail.mk id p (imagesOf id db) (categoriesOf id db)
                               (merge_sort (name_desc collate) (variantsOf id db)))
                         <$> products db !! id)).
  { unfold getProduct, eval. rewrite bind_ret_same.
    unfold product_findUnique_detail. step_m. by rewrite Hon. }
  split.
  - intros Hnone. by rewrite Hrun, Hnone.
  - intros p Hp. exists (merge_sort (name_desc collate) (variantsOf id db)).
    split; [by rewrite Hrun, Hp |]. split; [apply merge_sort_Permutation |].
    apply (@Sorted_merge_sort _ _ _ (name_desc_total Htot)).
Qed.

(** X5: on a reachable store [getImages] resolves with the empty list
    for an id that names no product and otherwise with one entry: the
    product with the id, source and alt text of each of its images and
    the id and image of each of its variants. *)
Theorem getImages_empty_or_single db id :
  online db = true →
  eval (getImages id) db
  = Ok (match products db !! id with
        | None => []
        | Some p =>
            [ProductImages.mk id p
               ((λ i : string * Image.t,
                   ImageSelect.mk i.1 (Image.src i.2) (Image.alt i.2)) <$> imagesOf id db)
               ((λ v : string * Variant.t,
                   VariantSelect.mk v.1 (Variant.imageSrc v.2)) <$> variantsOf id db)]
        end).
Proof.
  intros Hon. unfold getImages, eval. rewrite bind_ret_same.
  unfold product_findMany_images. step_m. rewrite Hon. simpl. f_equal.
  rewrite List_filter_filter.
  rewrite (list_filter_iff _ (λ kv, kv.1 = id))
    by (intros [k p]; simpl; apply String.eqb_eq).
  destruct (products db !! id) as [p |] eqn:Hp.
  - rewrite (filter_key_unique _ id p).
    + reflexivity.
    + apply NoDup_fst_map_to_list.
    + by apply elem_of_map_to_list.
  - rewrite filter_key_absent; [reflexivity |].
    intros Hin. apply list_elem_of_fmap in Hin as ([k p] & -> & Hin).
    apply elem_of_map_to_list in Hin. simpl in *. congruence.
Qed.

End DetailQueries.

Lemma sample_collate_total : Total sample_collate.
Proof. intros a b. unfold sample_collate. apply String.leb_total. Qed.

Lemma getProduct_null_or_detail_witness :
  (products sample_db !! "p1" = None → eval (getProduct sample_collate "p1") sample_db = Ok None)
  ∧ (∀ p, products sample_db !! "p1" = Some p →
       ∃ vs, eval (getProduct sample_collate "p1") sample_db
             = Ok (Some (ProductDetail.mk "p1" p (imagesOf "p1" sample_db)
                           (categoriesOf "p1" sample_db) vs))
             ∧ vs ≡ₚ variantsOf "p1" sample_db
             ∧ Sorted (λ a b, sample_collate (Variant.name b.2) (Variant.name a.2)) vs).
Proof.
  apply (getProduct_null_or_detail sample_collate sample_db "p1");
    [exact sample_collate_total | reflexivity].
Defined.

Lemma getImages_empty_or_single_witness :
  eval (getImages "p1") sample_db
  = Ok (match products sample_db !! "p1" with
        | None => []
        | Some p =>
            [ProductImages.mk "p1" p
               ((λ i : string * Image.t,
                   ImageSelect.mk i.1 (Image.src i.2) (Image.alt i.2))
                  <$> imagesOf "p1" sample_db)
               ((λ v : string * Variant.t,
                   VariantSelect.mk v.1 (Variant.imageSrc v.2))
                  <$> variantsOf "p1" sample_db)]
        end).
Proof. apply (getImages_empty_or_single sample_db "p1"). reflexivity. Defined.

(** ** Rejections of the product mutations *)

Section ProductMutations.
Context {float : Type} `{!JsNumber float}.
Variable parseFloat : string → float.
Implicit Types (db : Db float) (id : string).

(** X6: on a reachable store, toggling an id that names no product
    (no category) rejects with the not-found error of the lookup and
    leaves the store as it was; without an id the call rejects before
    it reaches the store. *)
Theorem toggle_unknown_id_rejects db id cid :
  online db = true →
  products db !! id = None →
  categories db !! cid = None →
  toggleStatus (Some id) db = (db, Err RecordNotFound)
  ∧ toggleCategoryStatus (Some cid) db = (db, Err RecordNotFound)
  ∧ toggleStatus None db = (db, Err ValidationError)
  ∧ toggleCategoryStatus None db = (db, Err ValidationError).
Proof.
  intros Hon Hp Hc. repeat split.
  - unfold toggleStatus, unique_id, product_findUniqueOrThrow. step_m.
    by rewrite Hon, Hp.
  - unfold toggleCategoryStatus, unique_id, category_findUniqueOrThrow. step_m.
    by rewrite Hon, Hc.
Qed.

(** X7: [updateProduct] never creates a product and is idempotent: on
    a reachable store an id that names no product makes it reject with
    the not-found error and write nothing, and on every store sending
    the same input a second time leaves the store the first call
    left. *)
Theorem updateProduct_unknown_id_rejects_and_repeat_is_noop db input :
  (online db = true →
   products db !! UpdateProductInput.id input = None →
   updateProduct parseFloat input db = (db, Err RecordNotFound))
  ∧ exec (updateProduct parseFloat input) (exec (updateProduct parseFloat input) db)
    = exec (updateProduct parseFloat input) db.
Proof.
  split.
  - intros Hon Hp. by rewrite updateProduct_cases, Hon, Hp.
  - unfold exec. rewrite (updateProduct_cases parseFloat db).
    destruct (online db) eqn:Hon; cbn [fst];
      [| by rewrite updateProduct_cases, Hon].
    destruct (products db !! UpdateProductInput.id input) as [p |] eqn:Hp; cbn [fst];
      [| by rewrite updateProduct_cases, Hon, Hp].
    destruct (isFinite (parseFloat (UpdateProductInput.price input))
              && isFinite (parseFloat (UpdateProductInput.weight input))) eqn:Hfin;
      cbn [fst]; rewrite updateProduct_cases;
      cbn [online products with_products]; rewrite Hon.
    + rewrite lookup_insert_eq, Hfin. cbn [fst Product.isActive Product.createdAt].
      unfold with_products; cbn. by rewrite insert_insert_eq.
    + by rewrite Hp, Hfin.
Qed.

End ProductMutations.

Lemma toggle_unknown_id_rejects_witness :
  toggleStatus (Some "p9") sample_db = (sample_db, Err RecordNotFound)
  ∧ toggleCategoryStatus (Some "c9") sample_db = (sample_db, Err RecordNotFound)
  ∧ toggleStatus None sample_db = (sample_db, Err ValidationError)
  ∧ toggleCategoryStatus None sample_db = (sample_db, Err ValidationError).
Proof. apply (toggle_unknown_id_rejects sample_db "p9" "c9"); reflexivity. Defined.

(** ** Product images *)

Section ImageMutations.
Context {float : Type} `{!JsNumber float}.
Implicit Types (db : Db float) (id : string).

Lemma addProductImage_run db now productId imageSrc imageAlt p :
  online db = true → products db !! productId = Some p →
  let db' := with_images (λ m, insert_fresh m (Image.mk imageSrc imageAlt productId now)) db in
  addProductImage now productId imageSrc imageAlt db
  = (db', Ok (ProductImageIds.mk productId p
                ((λ i : string * Image.t, (i.1, Image.createdAt i.2))
                   <$> imagesOf productId db'))).
Proof.
  intros Hon Hp db'. unfold addProductImage, product_update_images_create.
  step_m. by rewrite Hon, Hp.
Qed.

Lemma imagesOf_insert_fresh db productId (i : Image.t) :
  Image.productId i = productId →
  imagesOf productId (with_images (λ m, insert_fresh m i) db)
  ≡ₚ (fresh (dom (images db)), i) :: imagesOf productId db.
Proof.
  intros Hi. unfold imagesOf, with_images, insert_fresh. cbn [images].
  rewrite (map_to_list_insert _ _ _ (insert_fresh_lookup (images db))).
  by rewrite filter_cons_True.
Qed.

(** X8: on a reachable store [addProductImage] for an existing product
    adds one image row under an id that was not in use, with the source
    and the alt text of the input ([alt] is the input's, not the product
    name), owned by the product; the images the product had are kept,
    and the call resolves with the product and the ids of all its
    images, the new one among them. Products and variants are not
    written. *)
Theorem addProductImage_adds_one_image db now productId imageSrc imageAlt p :
  online db = true →
  products db !! productId = Some p →
  let db' := exec (addProductImage now productId imageSrc imageAlt) db in
  ∃ imageId ids,
    images db !! imageId = None
    ∧ images db' = <[imageId := Image.mk imageSrc imageAlt productId now]> (images db)
    ∧ imagesOf productId db'
      ≡ₚ (imageId, Image.mk imageSrc imageAlt productId now) :: imagesOf productId db
    ∧ eval (addProductImage now productId imageSrc imageAlt) db
      = Ok (ProductImageIds.mk productId p ids)
    ∧ ids ≡ₚ (imageId, now)
             :: ((λ i : string * Image.t, (i.1, Image.createdAt i.2))
                   <$> imagesOf productId db)
    ∧ products db' = products db
    ∧ variants db' = variants db.
Proof.
  intros Hon Hp db'. unfold db', eval, exec.
  rewrite (addProductImage_run db now productId imageSrc imageAlt p Hon Hp).
  cbn [fst snd].
  exists (fresh (dom (images db))). eexists.
  split; [apply insert_fresh_lookup |]. split; [reflexivity |].
  split; [by apply imagesOf_insert_fresh |]. split; [reflexivity |].
  split; [by rewrite imagesOf_insert_fresh | split; reflexivity].
Qed.

(** What [deleteProductImage] does, case by case. *)
Lemma deleteProductImage_cases db productId imageId :
  deleteProductImage productId imageId db
  = if online db
    then match products db !! productId, images db !! imageId with
         | Some _, Some i =>
             if decide (Image.productId i = productId)
             then (with_images (delete imageId) db, Ok tt)
             else (db, Err RecordNotFound)
         | _, _ => (db, Err RecordNotFound)
         end
    else (db, Err ClientUnavailable).
Proof.
  unfold deleteProductImage, product_update_images_delete. step_m.
  destruct (online db); [| done].
  destruct (products db !! productId); [| done].
  destruct (images db !! imageId) as [i |]; [| done].
  by destruct (decide (Image.productId i = productId)).
Qed.

(** X9: [deleteProductImage] never deletes an image of another product:
    whatever the store and the two ids, every image that belongs to a
    product other than [productId] is still there afterwards; and when
    [imageId] is not an image of [productId] the call rejects and the
    store is what it was. *)
Theorem deleteProductImage_only_own_images db productId imageId :
  (∀ k i, images db !! k = Some i → Image.productId i ≠ productId →
          images (exec (deleteProductImage productId imageId) db) !! k = Some i)
  ∧ (Image.productId <$> images db !! imageId ≠ Some productId →
     exec (deleteProductImage productId imageId) db = db
     ∧ isOk (eval (deleteProductImage productId imageId) db) = false).
Proof.
  unfold exec, eval. rewrite deleteProductImage_cases.
  destruct (online db); [| by split].
  destruct (products db !! productId) as [p |]; [| by split].
  destruct (images db !! imageId) as [i |] eqn:Hi; [| by split].
  destruct (decide (Image.productId i = productId)) as [Heq | Hne]; [| by split].
  split.
  - intros k j Hk Hj. cbn. apply lookup_delete_Some. split; [| done].
    intros <-. congruence.
  - intros Hnot. exfalso. apply Hnot. simpl. by rewrite Heq.
Qed.

(** X10: adding an image and then deleting it, under the id the add
    call resolved with, gives the store back: on a reachable store, for
    an existing product, one of the returned image ids is new, and
    [deleteProductImage] of it succeeds and restores the store. *)
Theorem addProductImage_then_delete_restores db now productId imageSrc imageAlt p :
  online db = true →
  products db !! productId = Some p →
  let db' := exec (addProductImage now productId imageSrc imageAlt) db in
  ∃ imageId res,
    eval (addProductImage now productId imageSrc imageAlt) db = Ok res
    ∧ (imageId, now) ∈ ProductImageIds.images res
    ∧ images db !! imageId = None
    ∧ deleteProductImage productId imageId db' = (db, Ok tt).
Proof.
  intros Hon Hp db'.
  set (i := Image.mk imageSrc imageAlt productId now).
  assert (Hdb' : db' = with_images (λ m, insert_fresh m i) db).
  { unfold db', exec.
    by rewrite (addProductImage_run db now productId imageSrc imageAlt p Hon Hp). }
  exists (fresh (dom (images db))). eexists.
  split; [unfold eval;
          by rewrite (addProductImage_run db now productId imageSrc imageAlt p Hon Hp) |].
  split; [cbn; fold i; rewrite imagesOf_insert_fresh by done; left |].
  split; [apply insert_fresh_lookup |].
  rewrite deleteProductImage_cases, Hdb'.
  cbn [online products images with_images]. rewrite Hon, Hp.
  unfold insert_fresh. rewrite lookup_insert_eq. cbn [Image.productId i].
  rewrite decide_True by done. f_equal.
  destruct db; unfold with_images; cbn. f_equal.
  apply delete_insert_id, insert_fresh_lookup.
Qed.

End ImageMutations.

Lemma addProductImage_adds_one_image_witness :
  let db' := exec (addProductImage 11%Z "p1" "https://d1sah57fmj9klu.cloudfront.net/back.png" "back") sample_db in
  ∃ imageId ids,
    images sample_db !! imageId = None
    ∧ images db'
      = <[imageId := Image.mk "https://d1sah57fmj9klu.cloudfront.net/back.png" "back" "p1" 11%Z]>
          (images sample_db)
    ∧ imagesOf "p1" db'
      ≡ₚ (imageId, Image.mk "https://d1sah57fmj9klu.cloudfront.net/back.png" "back" "p1" 11%Z)
         :: imagesOf "p1" sample_db
    ∧ eval (addProductImage 11%Z "p1" "https://d1sah57fmj9klu.cloudfront.net/back.png" "back") sample_db
      = Ok (ProductImageIds.mk "p1" (Product.mk "Shirt" 10%Z 2%Z "cotton" true 5%Z) ids)
    ∧ ids ≡ₚ (imageId, 11%Z)
             :: ((λ i : string * Image.t, (i.1, Image.createdAt i.2))
                   <$> imagesOf "p1" sample_db)
    ∧ products db' = products sample_db
    ∧ variants db' = variants sample_db.
Proof.
  apply (addProductImage_adds_one_image sample_db 11%Z "p1"
           "https://d1sah57fmj9klu.cloudfront.net/back.png" "back"
           (Product.mk "Shirt" 10%Z 2%Z "cotton" true 5%Z)); reflexivity.
Defined.

Lemma addProductImage_then_delete_restores_witness :
  let db' := exec (addProductImage 11%Z "p1" "https://d1sah57fmj9klu.cloudfront.net/back.png" "back") sample_db in
  ∃ imageId res,
    eval (addProductImage 11%Z "p1" "https://d1sah57fmj9klu.cloudfront.net/back.png" "back") sample_db
    = Ok res
    ∧ (imageId, 11%Z) ∈ ProductImageIds.images res
    ∧ images sample_db !! imageId = None
    ∧ deleteProductImage "p1" imageId db' = (sample_db, Ok tt).
Proof.
  apply (addProductImage_then_delete_restores sample_db 11%Z "p1"
           "https://d1sah57fmj9klu.cloudfront.net/back.png" "back"
           (Product.mk "Shirt" 10%Z 2%Z "cotton" true 5%Z)); reflexivity.
Defined.

(** ** Clearing the categories of a product *)

Section RemoveCategories.
Context {float : Type} `{!JsNumber float}.
Implicit Types (db : Db float) (id : string).

(** X11: on a reachable store [removeAllCategories] for an existing
    product succeeds and removes from the join table exactly the pairs
    of that product: no category is loaded for it afterwards, the
    memberships of the other products, the products and the categories
    themselves are what they were, and a second call changes nothing. *)
Theorem removeAllCategories_clears_one_product db productId p :
  online db = true →
  products db !! productId = Some p →
  let db' := exec (removeAllCategories productId) db in
  eval (removeAllCategories productId) db = Ok tt
  ∧ (∀ c q, (c, q) ∈ categoryToProduct db'
            ↔ q ≠ productId ∧ (c, q) ∈ categoryToProduct db)
  ∧ categoriesOf productId db' = []
  ∧ products db' = products db
  ∧ categories db' = categories db
  ∧ exec (removeAllCategories productId) db' = db'.
Proof.
  intros Hon Hp db'.
  assert (Hrun : ∀ d, online d = true → products d !! productId = Some p →
                 removeAllCategories productId d
                 = (with_categoryToProduct
                      (apply_categories productId (CategoriesSet [])) d, Ok tt)).
  { intros d Hd Hpd. unfold removeAllCategories, data_categories.
    rewrite bind_run, (product_update_categories d productId _ p Hd Hpd). done. }
  assert (Hdb' : db' = with_categoryToProduct
                         (apply_categories productId (CategoriesSet [])) db).
  { unfold db', exec. by rewrite (Hrun db Hon Hp). }
  assert (Hj : ∀ c q, (c, q) ∈ categoryToProduct db'
                      ↔ q ≠ productId ∧ (c, q) ∈ categoryToProduct db).
  { intros c q. rewrite Hdb'. cbn.
    rewrite elem_of_union, elem_of_filter. cbn. split.
    - intros [H | H]; [done | by apply elem_of_empty in H].
    - intros H. by left. }
  split; [unfold eval; by rewrite (Hrun db Hon Hp) |].
  split; [exact Hj |].
  split.
  - unfold categoriesOf. apply filter_none, Forall_forall.
    intros [c cat] _ Hin. cbn in Hin. apply Hj in Hin as [Hne _]. done.
  - split; [by rewrite Hdb' |]. split; [by rewrite Hdb' |].
    unfold exec. rewrite (Hrun db') by (by rewrite Hdb').
    cbn [fst]. rewrite Hdb'. destruct db as [ps ims vs cs j st on].
    unfold with_categoryToProduct. cbn. f_equal.
    apply set_eq. intros [c q].
    rewrite !elem_of_union, !elem_of_filter, elem_of_union, elem_of_filter. cbn.
    split.
    + intros [[_ H] | H]; [done | by apply elem_of_empty in H].
    + intros [[Hne H] | H]; [| by apply elem_of_empty in H].
      left. split; [done |]. left. done.
Qed.

End RemoveCategories.

Lemma removeAllCategories_clears_one_product_witness :
  let db' := exec (removeAllCategories "p1") sample_db in
  eval (removeAllCategories "p1") sample_db = Ok tt
  ∧ (∀ c q, (c, q) ∈ categoryToProduct db'
            ↔ q ≠ "p1" ∧ (c, q) ∈ categoryToProduct sample_db)
  ∧ categoriesOf "p1" db' = []
  ∧ products db' = products sample_db
  ∧ categories db' = categories sample_db
  ∧ exec (removeAllCategories "p1") db' = db'.
Proof.
  apply (removeAllCategories_clears_one_product sample_db "p1"
           (Product.mk "Shirt" 10%Z 2%Z "cotton" true 5%Z)); reflexivity.
Defined.

(** ** Variants *)

Section VariantMutations.
Context {float : Type} `{!JsNumber float}.
Implicit Types (db : Db float) (id : string).




(** What [removeVariant] does, case by case. *)
Lemma removeVariant_cases db id :
  removeVariant id db
  = if online db
    then match variants db !! id with
         | Some _ => (with_variants (delete id) db, Ok tt)
         | None => (db, Err RecordNotFound)
         end
    else (db, Err ClientUnavailable).
Proof.
  unfold removeVariant, variant_delete. step_m.
  destruct (online db); [| done]. by destruct (variants db !! id).
Qed.

(** X14: on a reachable store [removeVariant] with an id that names no
    variant rejects with the not-found error and leaves the store as it
    was; with the id of a variant it succeeds, that variant is gone and
    every other variant, and the products and images, are kept. *)
Theorem removeVariant_unknown_rejects_known_deletes_one db id :
  online db = true →
  (variants db !! id = None → removeVariant id db = (db, Err RecordNotFound))
  ∧ (is_Some (variants db !! id) →
     eval (removeVariant id) db = Ok tt
     ∧ variants (exec (removeVariant id) db) !! id = None
     ∧ (∀ k, k ≠ id → variants (exec (removeVariant id) db) !! k = variants db !! k)
     ∧ products (exec (removeVariant id) db) = products db
     ∧ images (exec (removeVariant id) db) = images db).
Proof.
  intros Hon. unfold eval, exec. rewrite removeVariant_cases, Hon. split.
  - by intros ->.
  - intros [v ->]. cbn. split; [done |].
    split; [apply lookup_delete_eq |].
    split; [intros k Hk; by apply lookup_delete_ne | done].
Qed.


End VariantMutations.



Lemma removeVariant_unknown_rejects_known_deletes_one_witness :
  (variants sample_db !! "v1" = None → removeVariant "v1" sample_db = (sample_db, Err RecordNotFound))
  ∧ (is_Some (variants sample_db !! "v1") →
     eval (removeVariant "v1") sample_db = Ok tt
     ∧ variants (exec (removeVariant "v1") sample_db) !! "v1" = None
     ∧ (∀ k, k ≠ "v1" → variants (exec (removeVariant "v1") sample_db) !! k
                        = variants sample_db !! k)
     ∧ products (exec (removeVariant "v1") sample_db) = products sample_db
     ∧ images (exec (removeVariant "v1") sample_db) = images sample_db).
Proof.
  apply (removeVariant_unknown_rejects_known_deletes_one sample_db "v1"). reflexivity.
Defined.


(** ** The banner text *)

Section Banner.
Context {float : Type} `{!JsNumber float}.
Implicit Types (db : Db float).

Lemma setBannerText_cases db name value :
  setBannerText name value db
  = if online db
    then (with_settings <[name := value]> db, Ok tt)
    else (db, Err ClientUnavailable).
Proof.
  unfold setBannerText, settings_upsert. step_m.
  destruct (online db); [| done]. by destruct (settings db !! name).
Qed.

Lemma getBannerText_cases db :
  eval getBannerText db
  = Ok (if online db then Settings.mk "banner" <$> settings db !! "banner" else None).
Proof.
  unfold getBannerText, settings_findUnique. step_m. by destruct (online db).
Qed.

(** X16: what [setBannerText] writes under the name ["banner"] is what
    [getBannerText] reads: on a reachable store the write succeeds, the
    read resolves with the row of that name and value, and of two
    writes under one name the later one is what the store keeps. *)
Theorem setBannerText_then_getBannerText db name value value' :
  online db = true →
  eval (setBannerText "banner" value) db = Ok tt
  ∧ eval getBannerText (exec (setBannerText "banner" value) db)
    = Ok (Some (Settings.mk "banner" value))
  ∧ exec (setBannerText name value') (exec (setBannerText name value) db)
    = exec (setBannerText name value') db.
Proof.
  intros Hon. unfold eval at 1, exec. rewrite !setBannerText_cases, Hon. cbn [fst snd].
  split; [done |]. split.
  - rewrite getBannerText_cases. cbn. by rewrite Hon, lookup_insert_eq.
  - unfold with_settings; cbn. rewrite Hon. cbn. by rewrite insert_insert_eq.
Qed.

(** X17: [setBannerText] takes any name, and [getBannerText] reads the
    name ["banner"] alone: a write under another name, on whatever
    store, does not change what [getBannerText] resolves with. *)
Theorem setBannerText_other_name_keeps_banner db name value :
  name ≠ "banner" →
  eval getBannerText (exec (setBannerText name value) db) = eval getBannerText db.
Proof.
  intros Hne. unfold exec. rewrite setBannerText_cases, !getBannerText_cases.
  destruct (online db) eqn:Hon; cbn; rewrite Hon; [| done].
  by rewrite lookup_insert_ne.
Qed.

End Banner.

Lemma setBannerText_then_getBannerText_witness :
  eval (setBannerText "banner" "Sale ends Friday") sample_db = Ok tt
  ∧ eval getBannerText (exec (setBannerText "banner" "Sale ends Friday") sample_db)
    = Ok (Some (Settings.mk "banner" "Sale ends Friday"))
  ∧ exec (setBannerText "footer" "Contact us")
         (exec (setBannerText "footer" "Sale ends Friday") sample_db)
    = exec (setBannerText "footer" "Contact us") sample_db.
Proof.
  apply (setBannerText_then_getBannerText sample_db "footer" "Sale ends Friday" "Contact us").
  reflexivity.
Defined.

Lemma setBannerText_other_name_keeps_banner_witness :
  eval getBannerText (exec (setBannerText "footer" "Contact us") sample_db)
  = eval getBannerText sample_db.
Proof.
  apply (setBannerText_other_name_keeps_banner sample_db "footer" "Contact us").
  discriminate.
Defined.

(** ** Categories *)

Section CategoryMutations.
Context {float : Type} `{!JsNumber float}.
Implicit Types (db : Db float) (id : string).

Lemma with_categories_id db id c :
  categories db !! id = Some c → with_categories <[id := c]> db = db.
Proof.
  intros Hc. destruct db; unfold with_categories; simpl in *.
  by rewrite insert_id.
Qed.

Lemma with_categories_twice db id c c' :
  with_categories <[id := c']> (with_categories <[id := c]> db)
  = with_categories <[id := c']> db.
Proof.
  destruct db; unfold with_categories; simpl. by rewrite insert_insert_eq.
Qed.



(** X20: for a category of a reachable store, toggling its status
    twice gives the store back: the first call negates [isActive], the
    second succeeds and restores it. *)
Theorem toggleCategoryStatus_twice_restores db id c :
  online db = true →
  categories db !! id = Some c →
  let db1 := exec (toggleCategoryStatus (Some id)) db in
  let db2 := exec (toggleCategoryStatus (Some id)) db1 in
  Category.isActive <$> categories db1 !! id = Some (negb (Category.isActive c))
  ∧ isOk (eval (toggleCategoryStatus (Some id)) db1) = true
  ∧ db2 = db.
Proof.
  intros Hon Hc db1 db2.
  set (c1 := Category.mk (Category.name c) (negb (Category.isActive c))).
  assert (H1 : db1 = with_categories <[id := c1]> db).
  { unfold db1, exec. by rewrite (toggleCategoryStatus_once db id c Hon Hc). }
  assert (Hc1 : categories db1 !! id = Some c1).
  { rewrite H1. cbn. apply lookup_insert_eq. }
  assert (Hon1 : online db1 = true) by (by rewrite H1).
  split; [by rewrite Hc1 |].
  split; [unfold eval; by rewrite (toggleCategoryStatus_once db1 id c1 Hon1 Hc1) |].
  unfold db2, exec. rewrite (toggleCategoryStatus_once db1 id c1 Hon1 Hc1). cbn [fst].
  rewrite H1, with_categories_twice. apply with_categories_id.
  rewrite Hc. f_equal. destruct c as [n a]. cbn. by rewrite negb_involutive.
Qed.

(** X21: on a reachable store [deleteCategory] with an id that names no
    category rejects with the not-found error and writes nothing; for a
    category of the store it succeeds, the category is gone together
    with every membership in it, and the other categories, the other
    memberships and all products are kept. *)
Theorem deleteCategory_removes_category_and_memberships db id :
  online db = true →
  (categories db !! id = None → deleteCategory (Some id) db = (db, Err RecordNotFound))
  ∧ (is_Some (categories db !! id) →
     eval (deleteCategory (Some id)) db = Ok tt
     ∧ categories (exec (deleteCategory (Some id)) db) !! id = None
     ∧ (∀ k, k ≠ id → categories (exec (deleteCategory (Some id)) db) !! k
                      = categories db !! k)
     ∧ (∀ c q, (c, q) ∈ categoryToProduct (exec (deleteCategory (Some id)) db)
               ↔ c ≠ id ∧ (c, q) ∈ categoryToProduct db)
     ∧ products (exec (deleteCategory (Some id)) db) = products db).
Proof.
  intros Hon. split.
  - intros Hc. unfold deleteCategory, unique_id, category_delete. step_m.
    by rewrite Hon, Hc.
  - intros [c Hc].
    assert (Hrun : deleteCategory (Some id) db
                   = (with_categoryToProduct (filter (λ cp, cp.1 ≠ id))
                        (with_categories (delete id) db), Ok tt)).
    { unfold deleteCategory, unique_id, category_delete. step_m. by rewrite Hon, Hc. }
    unfold eval, exec. rewrite Hrun. cbn. split; [done |].
    split; [apply lookup_delete_eq |].
    split; [intros k Hk; by apply lookup_delete_ne |].
    split; [| done].
    intros c' q. by rewrite elem_of_filter.
Qed.

End CategoryMutations.



Lemma toggleCategoryStatus_twice_restores_witness :
  let db1 := exec (toggleCategoryStatus (Some "c1")) sample_db in
  let db2 := exec (toggleCategoryStatus (Some "c1")) db1 in
  Category.isActive <$> categories db1 !! "c1" = Some false
  ∧ isOk (eval (toggleCategoryStatus (Some "c1")) db1) = true
  ∧ db2 = sample_db.
Proof.
  apply (toggleCategoryStatus_twice_restores sample_db "c1" (Category.mk "Tops" true));
    reflexivity.
Defined.

Lemma deleteCategory_removes_category_and_memberships_witness :
  (categories sample_db !! "c1" = None
   → deleteCategory (Some "c1") sample_db = (sample_db, Err RecordNotFound))
  ∧ (is_Some (categories sample_db !! "c1") →
     eval (deleteCategory (Some "c1")) sample_db = Ok tt
     ∧ categories (exec (deleteCategory (Some "c1")) sample_db) !! "c1" = None
     ∧ (∀ k, k ≠ "c1" → categories (exec (deleteCategory (Some "c1")) sample_db) !! k
                        = categories sample_db !! k)
     ∧ (∀ c q, (c, q) ∈ categoryToProduct (exec (deleteCategory (Some "c1")) sample_db)
               ↔ c ≠ "c1" ∧ (c, q) ∈ categoryToProduct sample_db)
     ∧ products (exec (deleteCategory (Some "c1")) sample_db) = products sample_db).
Proof.
  apply (deleteCategory_removes_category_and_memberships sample_db "c1"). reflexivity.
Defined.

Section CategoryQueries.
Context {float : Type} `{!JsNumber float}.
Context (collate : relation string) `{!RelDecision collate}.
Implicit Types (db : Db float) (id : string).

Lemma category_pairs (g : string * Category.t → option (list (string * Product.t float)))
    (rows : list (string * Category.t)) :
  (λ r : CategoryPayload.t float, (CategoryPayload.id r, CategoryPayload.row r))
    <$> ((λ kv, CategoryPayload.mk kv.1 kv.2 (g kv)) <$> rows)
  = rows.
Proof.
  induction rows as [| [k c] rows IH]; [done |].
  rewrite !fmap_cons, IH. reflexivity.
Qed.

(** X22: on a reachable store [getCategories] resolves with every
    category of the store, each once and without its products, in
    ascending order of the names under the collation of the
    database. *)
Theorem getCategories_all_by_name db :
  Total collate →
  online db = true →
  ∃ res,
    eval (getCategories collate) db = Ok res
    ∧ (λ r, (CategoryPayload.id r, CategoryPayload.row r)) <$> res
      ≡ₚ map_to_list (categories db)
    ∧ Forall (λ r, CategoryPayload.products r = None) res
    ∧ Sorted (λ a b, collate (Category.name (CategoryPayload.row a))
                             (Category.name (CategoryPayload.row b))) res.
Proof.
  intros Htot Hon. eexists. split; [| split; [| split]].
  - unfold getCategories, eval. rewrite bind_ret_same.
    unfold category_findMany. step_m. rewrite Hon. reflexivity.
  - rewrite category_pairs, merge_sort_Permutation. by rewrite List_filter_all.
  - apply Forall_fmap, Forall_true. done.
  - eapply Sorted_fmap; [| apply (@Sorted_merge_sort _ _ _ (name_asc_total collate Htot))].
    intros [k c] [k' c'] H. exact H.
Qed.

(** X23: on a reachable store [getActiveCategories] resolves with
    exactly the categories whose [isActive] is set, in ascending order
    of the names, and lists under each exactly the products that are
    related to it and are active themselves: an inactive product is
    never shown, nor is an inactive category. *)
Theorem getActiveCategories_shows_only_active db :
  Total collate →
  online db = true →
  ∃ res,
    eval (getActiveCategories collate) db = Ok res
    ∧ (∀ id c, (id, c) ∈ (λ r, (CategoryPayload.id r, CategoryPayload.row r)) <$> res
               ↔ categories db !! id = Some c ∧ Category.isActive c = true)
    ∧ Forall (λ r, ∃ ps,
                CategoryPayload.products r = Some ps
                ∧ ∀ k p, (k, p) ∈ ps
                         ↔ products db !! k = Some p ∧ Product.isActive p = true
                           ∧ (CategoryPayload.id r, k) ∈ categoryToProduct db) res
    ∧ Sorted (λ a b, collate (Category.name (CategoryPayload.row a))
                             (Category.name (CategoryPayload.row b))) res.
Proof.
  intros Htot Hon. eexists. split; [| split; [| split]].
  - unfold getActiveCategories, eval. rewrite bind_ret_same.
    unfold category_findMany. step_m. rewrite Hon. reflexivity.
  - intros id c. rewrite category_pairs, merge_sort_Permutation, List_filter_filter.
    rewrite list_elem_of_filter, elem_of_map_to_list. cbn.
    destruct (Category.isActive c); cbn; intuition congruence.
  - apply Forall_fmap, Forall_true. intros [k c]. cbn. eexists. split; [reflexivity |].
    intros k' p. rewrite List_filter_filter, list_elem_of_filter. unfold productsOf.
    rewrite list_elem_of_filter, elem_of_map_to_list. cbn.
    destruct (Product.isActive p); cbn; intuition congruence.
  - eapply Sorted_fmap; [| apply (@Sorted_merge_sort _ _ _ (name_asc_total collate Htot))].
    intros [k c] [k' c'] H. exact H.
Qed.

End CategoryQueries.

Lemma getCategories_all_by_name_witness :
  ∃ res,
    eval (getCategories sample_collate) sample_db = Ok res
    ∧ (λ r, (CategoryPayload.id r, CategoryPayload.row r)) <$> res
      ≡ₚ map_to_list (categories sample_db)
    ∧ Forall (λ r, CategoryPayload.products r = None) res
    ∧ Sorted (λ a b, sample_collate (Category.name (CategoryPayload.row a))
                                    (Category.name (CategoryPayload.row b))) res.
Proof.
  apply (getCategories_all_by_name sample_collate sample_db);
    [exact sample_collate_total | reflexivity].
Defined.

Lemma getActiveCategories_shows_only_active_witness :
  ∃ res,
    eval (getActiveCategories sample_collate) sample_db = Ok res
    ∧ (∀ id c, (id, c) ∈ (λ r, (CategoryPayload.id r, CategoryPayload.row r)) <$> res
               ↔ categories sample_db !! id = Some c ∧ Category.isActive c = true)
    ∧ Forall (λ r, ∃ ps,
                CategoryPayload.products r = Some ps
                ∧ ∀ k p, (k, p) ∈ ps
                         ↔ products sample_db !! k = Some p ∧ Product.isActive p = true
                           ∧ (CategoryPayload.id r, k) ∈ categoryToProduct sample_db) res
    ∧ Sorted (λ a b, sample_collate (Category.name (CategoryPayload.row a))
                                    (Category.name (CategoryPayload.row b))) res.
Proof.
  apply (getActiveCategories_shows_only_active sample_collate sample_db);
    [exact sample_collate_total | reflexivity].
Defined.

(** * Further properties of the form component *)

(** ** Class names *)

Lemma string_length_append (a b : string) :
  String.length (a +:+ b) = String.length a + String.length b.
Proof.
  induction a as [| c a IH]; [done |].
  change (String c a +:+ b) with (String c (a +:+ b)). simpl. by rewrite IH.
Qed.

Lemma join_with_length (sep : string) (l : list string) :
  String.length (join_with sep l)
  = sum_list (String.length <$> l) + String.length sep * pred (length l).
Proof.
  induction l as [| x l IH]; [simpl; lia |].
  destruct l as [| y l].
  - simpl. lia.
  - change (join_with sep (x :: y :: l)) with (x +:+ sep +:+ join_with sep (y :: l)).
    rewrite !string_length_append, IH. simpl. lia.
Qed.

Lemma nonempty_lengths (l : list string) :
  sum_list (String.length <$> filter (λ s, s ≠ "") l) = sum_list (String.length <$> l).
Proof.
  induction l as [| s l IH]; [done |].
  rewrite filter_cons. destruct (decide (s ≠ "")) as [Hs | Hs].
  - rewrite !fmap_cons. simpl. by rewrite IH.
  - apply dec_stable in Hs as ->. rewrite fmap_cons. simpl. exact IH.
Qed.

Lemma nonempty_none (l : list string) :
  Forall (λ s, s = "") l → filter (λ s, s ≠ "") l = [].
Proof.
  induction 1 as [| s l -> _ IH]; [done |].
  by rewrite filter_cons_False by (intros H; by apply H).
Qed.

(** X24: [classNames] joins the classes that are not empty with single
    spaces. An empty class adds nothing; a non-empty class is followed
    by one space and the rest, or by nothing when no non-empty class
    follows: so the result is the non-empty classes in their order with
    exactly one space between each two, none at either end. With that,
    the result is as long as all the classes together plus the spaces
    between the non-empty ones, and with no non-empty class it is the
    empty string. *)
Theorem classNames_single_spaces_between_nonempty (classes : list string) :
  String.length (classNames classes)
  = sum_list (String.length <$> classes)
    + pred (length (filter (λ s, s ≠ "") classes))
  ∧ (Forall (λ s, s = "") classes → classNames classes = "")
  ∧ classNames ("" :: classes) = classNames classes
  ∧ (∀ a, a ≠ "" →
       classNames (a :: classes)
       = if decide (Forall (λ s, s = "") classes)
         then a
         else a +:+ " " +:+ classNames classes).
Proof.
  assert (Hkept : ∀ l, List.filter (λ s, negb (String.eqb s "")) l
                       = filter (λ s, s ≠ "") l).
  { intros l. rewrite List_filter_filter. apply list_filter_iff. intros s.
    rewrite negb_true_iff. by destruct (String.eqb_spec s ""). }
  unfold classNames. rewrite !Hkept. split; [| split; [| split]].
  - rewrite join_with_length, nonempty_lengths. simpl. lia.
  - intros Hall. by rewrite nonempty_none.
  - rewrite filter_cons. by destruct (decide ("" ≠ "")).
  - intros a Ha. rewrite Hkept, filter_cons. destruct (decide (a ≠ "")); [| done].
    destruct (decide (Forall (λ s, s = "") classes)) as [Hall | Hsome].
    + by rewrite nonempty_none.
    + destruct (filter (λ s, s ≠ "") classes) as [| b kept] eqn:Hk; [| done].
      exfalso. apply Hsome. apply Forall_forall. intros s Hs.
      destruct (decide (s = "")) as [-> | Hne]; [done |].
      assert (Hin : s ∈ filter (λ s, s ≠ "") classes)
        by (by apply list_elem_of_filter).
      rewrite Hk in Hin. by apply elem_of_nil in Hin.
Qed.

(** ** The URL rewrite on other URLs *)

Lemma replace_absent (p r s : string) : includes p s = false → replace p r s = s.
Proof.
  induction s as [| c s IH]; cbn [includes replace]; intros H;
    apply orb_false_iff in H as [Hp Hs]; rewrite Hp; [done |].
  by rewrite IH.
Qed.

(** X25: the rewrite is a literal substitution of the one storage host:
    a URL in which that host does not occur (another bucket, another
    region) is returned as it is, so it reaches the form unrewritten. *)
Theorem cloudFrontUrl_keeps_other_urls (url : string) :
  includes s3_host url = false → cloudFrontUrl url = url.
Proof. apply replace_absent. Qed.

Lemma cloudFrontUrl_keeps_other_urls_witness :
  cloudFrontUrl "https://hustlermy-prod.s3.ap-southeast-1.amazonaws.com/next-s3-uploads/a.png"
  = "https://hustlermy-prod.s3.ap-southeast-1.amazonaws.com/next-s3-uploads/a.png".
Proof.
  apply (cloudFrontUrl_keeps_other_urls
           "https://hustlermy-prod.s3.ap-southeast-1.amazonaws.com/next-s3-uploads/a.png").
  reflexivity.
Defined.

(** ** The handlers of the dialog *)

Section FormHandlers.
Context {File : Type}.
Variable uploadToS3 : File → string.
Implicit Types (c : @Component File) (files : list File).

(** X26: an initial batch followed by one more image through the
    add-more picker leaves the component as one initial batch of all
    the files would: the same image URLs in the same order and the same
    previews. *)
Theorem addMore_after_batch_is_one_batch files file rest c :
  handleAddMoreImages uploadToS3 (Some (file :: rest))
    (onProductImageChange uploadToS3 (Some files) c)
  = onProductImageChange uploadToS3 (Some (files ++ [file])) c.
Proof.
  unfold handleAddMoreImages, onProductImageChange.
  rewrite !upload_loop. cbn. rewrite !fmap_app. reflexivity.
Qed.

(** X27: appending a variant row and removing the last row again gives
    the component back. *)
Theorem remove_appended_variant_restores c :
  remove_variant (length (FormValues.variant (values c))) (append_variant c) = c.
Proof.
  destruct c as [[n p w d im va] prev].
  unfold remove_variant, append_variant, setVariant. cbn.
  by rewrite delete_middle, app_nil_r.
Qed.

(** The resolver rejects values with a variant row it cannot parse. *)
Lemma schema_unparsed_variant (v : FormValues.t) :
  Exists (λ row, schema_variant row = None) (FormValues.variant v) → schema v = None.
Proof.
  intros Hex. unfold schema. destruct (_ && _); [| done].
  destruct (mapM schema_image (FormValues.image v)); [| done]. cbn.
  by rewrite (mapM_None_2 _ _ Hex).
Qed.

(** X28: an unfinished variant row blocks the submission: after a row
    was appended nothing is submitted until it is filled in, and a
    variant image written at an index past the rows (which leaves a row
    without a name, and holes before it) makes the form unsubmittable
    as well. *)
Theorem unfinished_variant_rows_block_submit c :
  submit (append_variant c) = None
  ∧ (∀ (file : File) (rest : list File) (index : nat),
       (length (FormValues.variant (values c)) ≤ index)%nat →
       submit (onVariantImageChange uploadToS3 (Some (file :: rest)) index c) = None).
Proof.
  split.
  - apply schema_unparsed_variant. cbn. apply Exists_app. right. by left.
  - intros file rest index Hidx. apply schema_unparsed_variant. cbn.
    unfold set_variant.
    set (l := FormValues.variant (values c)) in *.
    set (l' := l ++ replicate (S index - length l) None).
    assert (Hlen : index < length l').
    { unfold l'. rewrite length_app, length_replicate. lia. }
    assert (Hnone : l' !!! index = None).
    { rewrite list_lookup_total_alt. unfold l'.
      rewrite lookup_app_r by done.
      rewrite lookup_replicate_2 by lia. done. }
    rewrite Hnone. cbn.
    apply Exists_exists. eexists. split.
    + apply list_elem_of_lookup. exists index. by apply list_lookup_insert_eq.
    + reflexivity.
Qed.

(** X29: a variant image chosen for an existing row is written into
    that row alone: the row keeps its name and gets the rewritten URL
    of the first selected file, the number of rows, the other rows, the
    product images and the previews are what they were. *)
Theorem onVariantImageChange_writes_one_row c file rest index r :
  FormValues.variant (values c) !! index = Some (Some r) →
  let c' := onVariantImageChange uploadToS3 (Some (file :: rest)) index c in
  FormValues.variant (values c') !! index
  = Some (Some (VariantRow.mk (VariantRow.name r)
                              (Some (cloudFrontUrl (uploadToS3 file)))))
  ∧ length (FormValues.variant (values c')) = length (FormValues.variant (values c))
  ∧ (∀ j, j ≠ index → FormValues.variant (values c') !! j
                      = FormValues.variant (values c) !! j)
  ∧ FormValues.image (values c') = FormValues.image (values c)
  ∧ imagePreviews c' = imagePreviews c.
Proof.
  intros Hr c'.
  pose proof (lookup_lt_Some _ _ _ Hr) as Hlt.
  assert (Hset : FormValues.variant (values c')
                 = <[index := Some (VariantRow.mk (VariantRow.name r)
                                      (Some (cloudFrontUrl (uploadToS3 file))))]>
                     (FormValues.variant (values c))).
  { unfold c', onVariantImageChange. cbn. unfold set_variant.
    replace (S index - length (FormValues.variant (values c))) with 0 by lia.
    cbn. rewrite app_nil_r, list_lookup_total_alt, Hr. reflexivity. }
  rewrite Hset.
  split; [by apply list_lookup_insert_eq |].
  split; [apply length_insert |].
  split; [intros j Hj; by apply list_lookup_insert_ne | done].
Qed.

End FormHandlers.

Lemma onVariantImageChange_writes_one_row_witness :
  let c := run sample_upload [InputVariantName 0 "blue"] in
  let c' := onVariantImageChange sample_upload (Some ["blue.png"]) 0 c in
  FormValues.variant (values c') !! 0
  = Some (Some (VariantRow.mk (Some "blue") (Some (cloudFrontUrl (sample_upload "blue.png")))))
  ∧ length (FormValues.variant (values c')) = length (FormValues.variant (values c))
  ∧ (∀ j, j ≠ 0 → FormValues.variant (values c') !! j = FormValues.variant (values c) !! j)
  ∧ FormValues.image (values c') = FormValues.image (values c)
  ∧ imagePreviews c' = imagePreviews c.
Proof.
  apply (onVariantImageChange_writes_one_row sample_upload
           (run sample_upload [InputVariantName 0 "blue"]) "blue.png" [] 0
           (VariantRow.mk (Some "blue") (Some ""))).
  reflexivity.
Defined.

(** ** From the dialog to the store *)

Section EndToEnd.
Context {float : Type} `{!JsNumber float} {File : Type}.
Variable parseFloat : string → float.
Variable isActive_default : bool.
Variable uploadToS3 : File → string.
Implicit Types (db : Db float).

(** X30: from the dialog to the store. If every upload answered with a
    URL under the storage domain, the form accepts the values and the
    price and the weight of the payload parse to finite numbers (the
    schema does not check that), then on a reachable store that
    respects its foreign keys the submission succeeds and creates,
    under an id that was not in use, a product with one image row per
    image of the payload and one variant row per variant, and the URL of
    every one of these rows starts with the CDN host and not with the
    storage host. *)
Theorem submitted_product_is_stored_with_cloudFront_urls
    (events : list Event) (payload : ProductInput.t) db (now : Z) :
  (∀ file, String.prefix s3_host (uploadToS3 file) = true) →
  submit (run uploadToS3 events) = Some payload →
  isFinite (parseFloat (ProductInput.price payload)) = true →
  isFinite (parseFloat (ProductInput.weight payload)) = true →
  online db = true →
  foreign_keys db →
  let db' := exec (handleSubmit parseFloat isActive_default now (run uploadToS3 events)) db in
  eval (handleSubmit parseFloat isActive_default now (run uploadToS3 events)) db = Ok tt
  ∧ ∃ id,
      products db !! id = None
      ∧ Product.name <$> products db' !! id = Some (ProductInput.name payload)
      ∧ length (imagesOf id db') = length (ProductInput.image payload)
      ∧ Forall (λ kv, String.prefix cloudFront_host (Image.src kv.2) = true
                      ∧ String.prefix s3_host (Image.src kv.2) = false)
               (imagesOf id db')
      ∧ length (variantsOf id db') = length (ProductInput.variant payload)
      ∧ Forall (λ kv, String.prefix cloudFront_host (Variant.imageSrc kv.2) = true
                      ∧ String.prefix s3_host (Variant.imageSrc kv.2) = false)
               (variantsOf id db').
Proof.
  intros Hup Hsubmit Hprice Hweight Hon [Himg Hvar] db'.
  destruct (schema_ok _ _ (run_ok uploadToS3 Hup events) Hsubmit) as [Hi Hv].
  assert (Hcdn : ∀ url, uses_cloudFront url = true →
                 String.prefix cloudFront_host url = true
                 ∧ String.prefix s3_host url = false).
  { intros url H. unfold uses_cloudFront in H. apply andb_true_iff in H as [H1 H2].
    by apply negb_true_iff in H2. }
  unfold db', eval, exec, handleSubmit. rewrite Hsubmit.
  rewrite (addProduct_run parseFloat isActive_default db now payload Hon Hprice Hweight).
  cbn [fst snd].
  split; [reflexivity |].
  set (id := fresh (dom (products db))).
  assert (Hid : products db !! id = None) by apply insert_fresh_lookup.
  exists id. split; [exact Hid |].
  split; [cbn; by rewrite lookup_insert_eq |].
  unfold imagesOf, variantsOf. cbn [images variants].
  set (irows := (λ image, Image.mk (ImageField.src image) (ProductInput.name payload) id now)
                  <$> ProductInput.image payload).
  set (vrows := (λ variant, Variant.mk (VariantField.name variant)
                              (VariantField.imageSrc variant) "color" id)
                  <$> ProductInput.variant payload).
  assert (Hio : (filter (λ kv, Image.productId kv.2 = id)
                   (map_to_list (createMany irows (images db)))).*2 ≡ₚ irows).
  { apply (createMany_owned Image.productId).
    - apply Forall_fmap, Forall_true. done.
    - intros k i Hk Heq. destruct (Himg k i Hk) as [p Hp].
      rewrite Heq, Hid in Hp. discriminate. }
  assert (Hvo : (filter (λ kv, Variant.productId kv.2 = id)
                   (map_to_list (createMany vrows (variants db)))).*2 ≡ₚ vrows).
  { apply (createMany_owned Variant.productId).
    - apply Forall_fmap, Forall_true. done.
    - intros k v Hk Heq. destruct (Hvar k v Hk) as [p Hp].
      rewrite Heq, Hid in Hp. discriminate. }
  split; [| split; [| split]].
  - rewrite <- (length_fmap snd), Hio. unfold irows. by rewrite length_fmap.
  - apply (Forall_fmap snd (λ i, String.prefix cloudFront_host (Image.src i) = true
                                 ∧ String.prefix s3_host (Image.src i) = false)).
    rewrite Hio. unfold irows. apply Forall_fmap.
    eapply Forall_impl; [exact Hi |]. intros i H. cbn. by apply Hcdn.
  - rewrite <- (length_fmap snd), Hvo. unfold vrows. by rewrite length_fmap.
  - apply (Forall_fmap snd (λ v, String.prefix cloudFront_host (Variant.imageSrc v) = true
                                 ∧ String.prefix s3_host (Variant.imageSrc v) = false)).
    rewrite Hvo. unfold vrows. apply Forall_fmap.
    eapply Forall_impl; [exact Hv |]. intros v H. cbn. by apply Hcdn.
Qed.

End EndToEnd.

Lemma submitted_product_is_stored_with_cloudFront_urls_witness :
  let db' := exec (handleSubmit sample_parseFloat true 9%Z (run sample_upload sample_events))
                  sample_db in
  eval (handleSubmit sample_parseFloat true 9%Z (run sample_upload sample_events)) sample_db
  = Ok tt
  ∧ ∃ id,
      products sample_db !! id = None
      ∧ Product.name <$> products db' !! id = Some "Socks"
      ∧ length (imagesOf id db') = 3
      ∧ Forall (λ kv, String.prefix cloudFront_host (Image.src kv.2) = true
                      ∧ String.prefix s3_host (Image.src kv.2) = false)
               (imagesOf id db')
      ∧ length (variantsOf id db') = 1
      ∧ Forall (λ kv, String.prefix cloudFront_host (Variant.imageSrc kv.2) = true
                      ∧ String.prefix s3_host (Variant.imageSrc kv.2) = false)
               (variantsOf id db').
Proof.
  apply (submitted_product_is_stored_with_cloudFront_urls
           sample_parseFloat true sample_upload sample_events
           (ProductInput.mk "Socks" "12" "1" "wool socks"
              [ImageField.mk "https://d1sah57fmj9klu.cloudfront.net/next-s3-uploads/socks-1.png";
               ImageField.mk "https://d1sah57fmj9klu.cloudfront.net/next-s3-uploads/socks-2.png";
               ImageField.mk "https://d1sah57fmj9klu.cloudfront.net/next-s3-uploads/socks-3.png"]
              [VariantField.mk "blue" "https://d1sah57fmj9klu.cloudfront.net/next-s3-uploads/blue.png"])
           sample_db 9%Z).
  - intros file. reflexivity.
  - reflexivity.
  - reflexivity.
  - reflexivity.
  - reflexivity.
  - refine (@bool_decide_unpack _ (foreign_keys_dec sample_db) _). vm_compute. exact I.
Defined.
